(** * UPRISE content server: the content-slot store and the credential store

    A shallow embedding of the Express/SQLite server of the repository.
    The repository holds two variants of the same server:

    - [src/server.js]: the admin password is stored and compared as it is;
    - the second variant (the one that requires [bcrypt]): the admin
      password is stored as a bcrypt hash and compared with
      [bcrypt.compare].

    The content handlers of the two variants run the same SQL statements
    and the same file-system calls; they differ in message texts only.

    Modelling choices.

    - The SQLite file is a record [database]: the rows of table [content]
      in insertion order, the [sqlite_sequence] counter that AUTOINCREMENT
      keeps for it, and the row [id = 1] of [admin_settings] (the only row
      the code ever reads or writes), if it exists.
    - The [uploads/] directory is a finite set of file names.
    - A handler is a computation over the pair of the two, the [world];
      it returns the JSON response.
    - [CURRENT_TIMESTAMP] is read from a clock value passed to the handler.
    - Every [db.get] and [db.run] call has an [err] branch in the code; the
      record [faults] says which calls of a request report an error for an
      outside reason (database unreachable, disk failure).
    - Values are typed as the columns type them: [subject] and [feature]
      are strings, [chapter] and [id] are integers (SQLite's INTEGER
      affinity turns the decimal text of a URL parameter into that
      integer). A field that is missing from the JSON body is [None]; it
      is bound as SQL NULL. Row ids are unbounded integers.
    - The model of a chapter is exact for the integers of 64 bits
      ([int64]), which the INTEGER column stores as they are. SQLite
      turns a decimal text outside that range into a REAL, and two such
      texts that round to the same REAL are one key; such chapters are
      outside the model, and the statements that depend on two
      chapters being two slots take the range as a hypothesis.
    - Beside the handlers, the multer configuration (file filter, size
      limit, stored file name), the listing route and the download route
      are modelled; [path.basename] and [path.extname] follow Node's
      POSIX behaviour. *)

From Stdlib Require Import ZArith String Ascii.
From stdpp Require Import base decidable option list strings gmap sets.
From stdpp Require Import sorting pretty.

Local Open Scope string_scope.

(** ** Table [content] *)

(** One row of [CREATE TABLE content]. [rowid] is the column
    [id INTEGER PRIMARY KEY AUTOINCREMENT]; timestamps are seconds. *)
Record row := Row {
  rowid : Z;
  subject : string;
  feature : string;
  chapter : Z;
  content_type : string;
  file_path : option string;
  text_content : option string;
  created_at : Z;
  updated_at : Z
}.

#[global] Instance row_eq_dec : EqDecision row.
Proof. solve_decision. Defined.

(** The columns of [UNIQUE(subject, feature, chapter)]. *)
Definition slot_key : Type := string * string * Z.

Definition key_of (r : row) : slot_key := (subject r, feature r, chapter r).

Record database := Database {
  content : list row;
  sqlite_sequence : Z;
  admin_settings : option string
}.

(** The server's state: the SQLite file and the [uploads/] directory. *)
Record world := World {
  db : database;
  uploads : gset string
}.

(** ** SQL statements used by the handlers *)

(** [INSERT OR REPLACE INTO content (subject, feature, chapter,
    content_type, file_path | text_content, updated_at) VALUES (?, ?, ?,
    'file' | 'text', ?, CURRENT_TIMESTAMP)].

    A NULL in a NOT NULL column without default aborts the statement
    ([None]). Otherwise REPLACE first deletes every row that conflicts on
    the UNIQUE index, then inserts the new row. The column list names
    neither [id] nor [created_at]: the id is the next AUTOINCREMENT value
    and [created_at] takes its default, CURRENT_TIMESTAMP. The column
    that is not listed ([text_content] or [file_path]) is NULL.

    The UNIQUE index compares the chapter as the integer that is stored;
    this is what SQLite does for chapters in [int64] (see above). *)
Definition insert_or_replace (now : Z) (s f : option string) (c : option Z)
    (ctype : string) (fp txt : option string) (d : database) : option database :=
  match s, f, c with
  | Some s, Some f, Some c =>
      let id := (sqlite_sequence d + 1)%Z in
      Some {| content := filter (λ r, key_of r ≠ (s, f, c)) (content d)
                           ++ [Row id s f c ctype fp txt now now];
              sqlite_sequence := id;
              admin_settings := admin_settings d |}
  | _, _, _ => None
  end.

(** [SELECT * FROM content WHERE subject = ? AND feature = ? AND chapter = ?],
    first row. The chapter of the request is compared as an integer with
    the stored one, as SQLite does for chapters in [int64]. *)
Definition select_by_key (k : slot_key) (d : database) : option row :=
  snd <$> list_find (λ r, key_of r = k) (content d).

(** [SELECT file_path FROM content WHERE id = ?], first row. *)
Definition select_by_id (id : Z) (d : database) : option row :=
  snd <$> list_find (λ r, rowid r = id) (content d).

(** [DELETE FROM content WHERE id = ?]. *)
Definition delete_by_id (id : Z) (d : database) : database :=
  {| content := filter (λ r, rowid r ≠ id) (content d);
     sqlite_sequence := sqlite_sequence d;
     admin_settings := admin_settings d |}.

(** [UPDATE admin_settings SET password_hash = ? WHERE id = 1]: changes
    the row if it is there, and is not an error if it is not. *)
Definition update_password_hash (h : string) (d : database) : database :=
  {| content := content d;
     sqlite_sequence := sqlite_sequence d;
     admin_settings := (λ _, h) <$> admin_settings d |}.

(** [INSERT INTO admin_settings (password_hash) VALUES (?)] of
    [initDatabase], run only when [SELECT ... WHERE id = 1] found no row. *)
Definition init_admin_settings (h : string) (d : database) : database :=
  {| content := content d;
     sqlite_sequence := sqlite_sequence d;
     admin_settings := match admin_settings d with
                       | Some old => Some old
                       | None => Some h
                       end |}.

(** ** Paths *)

Definition slash : ascii := "/"%char.

(** [path.basename] (POSIX): the last non-empty component of the path,
    the empty string if there is none. [cur] is the component being read,
    [last] the last complete non-empty one. *)
Fixpoint basename_from (cur last s : string) : string :=
  match s with
  | EmptyString => if decide (cur = "") then last else cur
  | String c s' =>
      if decide (c = slash)
      then basename_from "" (if decide (cur = "") then last else cur) s'
      else basename_from (cur ++ String c "") last s'
  end.

Definition basename (p : string) : string := basename_from "" "" p.

(** ** Handlers as computations over the world *)

Definition handler (A : Type) : Type := world → A * world.

Definition ret {A} (a : A) : handler A := λ w, (a, w).

Definition bind {A B} (m : handler A) (k : A → handler B) : handler B :=
  λ w, let (a, w') := m w in k a w'.

Notation "'let*' x := m 'in' k" := (bind m (λ x, k))
  (at level 10, x name, m at level 100, k at level 200, only parsing).

(** Which database calls of the current request fail from outside. *)
Record faults := Faults {
  get_fails : bool;
  run_fails : bool
}.

Definition no_faults : faults := Faults false false.

(** The [err] argument of a database callback. *)
Inductive outcome (A : Type) :=
| Err
| Ok (a : A).
Arguments Err {A}.
Arguments Ok {A} _.

(** [db.get(sql, params, cb)]: a query, the state is not changed. *)
Definition db_get {A} (io : faults) (q : database → A) : handler (outcome A) :=
  λ w, if get_fails io then (Err, w) else (Ok (q (db w)), w).

(** [db.run(sql, params, cb)]: a statement; on error nothing is written. *)
Definition db_run (io : faults) (stmt : database → option database)
    : handler (outcome unit) :=
  λ w, if run_fails io then (Err, w)
       else match stmt (db w) with
            | Some d' => (Ok tt, World d' (uploads w))
            | None => (Err, w)
            end.

(** [if (fs.existsSync(p)) fs.unlinkSync(p)] for [p] in [uploads/]. *)
Definition unlink_if_exists (name : string) : handler unit :=
  λ w, if decide (name ∈ uploads w)
       then (tt, World (db w) (uploads w ∖ {[name]}))
       else (tt, w).

(** multer's disk storage: the upload is written to [uploads/] under the
    generated name before the route handler runs. *)
Definition multer_store (name : string) : handler unit :=
  λ w, (tt, World (db w) ({[name]} ∪ uploads w)).

(** ** Responses *)

Inductive json :=
| Result (success : bool) (message : option string)
| Uploaded (message filePath : string)
| Found (row_content : row).

Record response := Response {
  status : nat;
  body : json
}.

(** The [success] flag of the JSON body. *)
Definition success (r : response) : bool :=
  match body r with
  | Result s _ => s
  | Uploaded _ _ => true
  | Found _ => true
  end.

Definition respond (st : nat) (b : json) : handler response :=
  ret (Response st b).

(** JavaScript truthiness of a nullable TEXT column: NULL and the empty
    string are falsy. *)
Definition truthy (v : option string) : bool :=
  match v with
  | Some s => bool_decide (s ≠ "")
  | None => false
  end.

(** The block [if (row && row.file_path) { ... }] of the delete route:
    [path.basename] of the stored path names the file in [uploads/]; it
    is unlinked if it exists. *)
Definition unlink_row_file (row : option row) : handler unit :=
  match row with
  | Some r =>
      if truthy (file_path r)
      then unlink_if_exists (basename (default "" (file_path r)))
      else ret tt
  | None => ret tt
  end.

(** ** The handlers of [src/server.js] *)

Module ServerJs.

Definition defaultPassword : string := "admin123".

(** [initDatabase]: both tables are created empty if they are not there;
    the default password is inserted, as it is, when row 1 is missing. *)
Definition initDatabase (d : database) : database :=
  init_admin_settings defaultPassword d.

(** [row && row.password_hash === password] *)
Definition password_matches (row : option string) (password : string) : bool :=
  match row with
  | Some password_hash => bool_decide (password_hash = password)
  | None => false
  end.

(** [POST /api/verify-password] *)
Definition verify_password (io : faults) (password : string) : handler response :=
  let* row := db_get io admin_settings in
  match row with
  | Err => respond 500 (Result false (Some "Database error"))
  | Ok row =>
      if password_matches row password
      then respond 200 (Result true None)
      else respond 200 (Result false (Some "Incorrect password"))
  end.

(** [POST /api/change-password] *)
Definition change_password (io : faults) (oldPassword newPassword : string)
    : handler response :=
  let* row := db_get io admin_settings in
  match row with
  | Err => respond 500 (Result false (Some "Database error"))
  | Ok row =>
      if password_matches row oldPassword
      then
        let* err := db_run io (λ d, Some (update_password_hash newPassword d)) in
        match err with
        | Err => respond 500 (Result false (Some "Failed to update password"))
        | Ok _ => respond 200 (Result true (Some "Password changed successfully"))
        end
      else respond 200 (Result false (Some "Incorrect old password"))
  end.

(** [POST /api/upload-file], the route handler that runs after multer.
    [file] is [req.file.filename], [None] when the request had no file. *)
Definition upload_file (io : faults) (now : Z) (sub feat : option string)
    (chap : option Z) (file : option string) : handler response :=
  match file with
  | None => respond 400 (Result false (Some "No file uploaded"))
  | Some filename =>
      let filePath := "/uploads/" ++ filename in
      let* err := db_run io
        (insert_or_replace now sub feat chap "file" (Some filePath) None) in
      match err with
      | Err => respond 500 (Result false (Some "Database error"))
      | Ok _ => respond 200 (Uploaded "File uploaded successfully" filePath)
      end
  end.

(** [POST /api/save-text]; [text] is [req.body.content]. *)
Definition save_text (io : faults) (now : Z) (sub feat : option string)
    (chap : option Z) (text : option string) : handler response :=
  let* err := db_run io
    (insert_or_replace now sub feat chap "text" None text) in
  match err with
  | Err => respond 500 (Result false (Some "Database error"))
  | Ok _ => respond 200 (Result true (Some "Content saved successfully"))
  end.

(** [GET /api/content/:subject/:feature/:chapter] *)
Definition get_content (io : faults) (sub feat : string) (chap : Z)
    : handler response :=
  let* row := db_get io (select_by_key (sub, feat, chap)) in
  match row with
  | Err => respond 500 (Result false (Some "Database error"))
  | Ok (Some r) => respond 200 (Found r)
  | Ok None => respond 200 (Result false (Some "No content found"))
  end.

(** [DELETE /api/content/:id]: first the file, then the row. *)
Definition delete_content (io : faults) (id : Z) : handler response :=
  let* row := db_get io (select_by_id id) in
  match row with
  | Err => respond 500 (Result false (Some "Database error"))
  | Ok row =>
      let* _ := unlink_row_file row in
      let* err := db_run io (λ d, Some (delete_by_id id d)) in
      match err with
      | Err => respond 500 (Result false (Some "Failed to delete"))
      | Ok _ => respond 200 (Result true (Some "Content deleted successfully"))
      end
  end.

(** A request as it reaches the server. [auth] is a password that the
    client may have put into the request; the three content routes that
    carry it have no code that reads it. *)
Inductive request :=
| VerifyPassword (password : string)
| ChangePassword (oldPassword newPassword : string)
| UploadFile (sub feat : option string) (chap : option Z)
    (file : option string) (auth : option string)
| SaveText (sub feat : option string) (chap : option Z)
    (text : option string) (auth : option string)
| GetContent (sub feat : string) (chap : Z)
| DeleteContent (id : Z) (auth : option string).

(** The password that comes with a request, if any. *)
Definition credential (req : request) : option string :=
  match req with
  | VerifyPassword p => Some p
  | ChangePassword old _ => Some old
  | UploadFile _ _ _ _ auth => auth
  | SaveText _ _ _ _ auth => auth
  | GetContent _ _ _ => None
  | DeleteContent _ auth => auth
  end.

(** The two upserts of the slot store as requests: [put_file] is an upload
    that multer has stored under [name], [put_text] a save-text call. *)
Inductive payload :=
| FileBlob (name : string)
| Text (text : string).

Definition put (k : slot_key) (p : payload) (auth : option string) : request :=
  let '(s, f, c) := k in
  match p with
  | FileBlob name => UploadFile (Some s) (Some f) (Some c) (Some name) auth
  | Text text => SaveText (Some s) (Some f) (Some c) (Some text) auth
  end.

(** Route dispatch. For an upload, multer stores the file first. *)
Definition handle (io : faults) (now : Z) (req : request) : handler response :=
  match req with
  | VerifyPassword p => verify_password io p
  | ChangePassword old new => change_password io old new
  | UploadFile sub feat chap file _ =>
      let* _ := match file with
                | Some name => multer_store name
                | None => ret tt
                end in
      upload_file io now sub feat chap file
  | SaveText sub feat chap text _ => save_text io now sub feat chap text
  | GetContent sub feat chap => get_content io sub feat chap
  | DeleteContent id _ => delete_content io id
  end.

(** The state of a server whose [initDatabase] has completed on a new
    database and an empty [uploads/] directory: both tables exist, table
    [content] is empty and row 1 of [admin_settings] holds the default
    password. [initDatabase] does not serialize its statements; on a new
    file the SELECT or the INSERT can run before the table exists, and
    such a start ends without the row. The next start, on the tables that
    exist by then, inserts it and reaches this state. *)
Definition init_world : world :=
  World (initDatabase (Database [] 0 None)) ∅.

(** A run of the server: each request comes with the faults it meets
    and the clock value it reads. *)
Fixpoint serve (reqs : list (faults * Z * request)) (w : world) : world :=
  match reqs with
  | [] => w
  | (io, now, req) :: rest => serve rest (snd (handle io now req w))
  end.

Definition reachable (w : world) : Prop :=
  ∃ reqs, serve reqs init_world = w.

End ServerJs.

(** ** The credential and delete handlers of the bcrypt variant *)

Module Bcrypt.
Section Handlers.

(** [bcrypt.hash(data, rounds)], as a function of the salt it draws, and
    [bcrypt.compare(data, hash)]: the library is a parameter. *)
Variable bcrypt_hash : string → nat → string → string.
Variable bcrypt_compare : string → string → bool.

Definition defaultPassword : string := "admin123".

(** [initDatabase]: the default password is hashed before it is stored. *)
Definition initDatabase (salt : string) (d : database) : database :=
  init_admin_settings (bcrypt_hash defaultPassword 10 salt) d.

(** [row && await bcrypt.compare(password, row.password_hash)] *)
Definition password_matches (row : option string) (password : string) : bool :=
  match row with
  | Some password_hash => bcrypt_compare password password_hash
  | None => false
  end.

(** [POST /api/verify-password] *)
Definition verify_password (io : faults) (password : string) : handler response :=
  let* row := db_get io admin_settings in
  match row with
  | Err => respond 500 (Result false (Some "Database error"))
  | Ok row =>
      if password_matches row password
      then respond 200 (Result true None)
      else respond 200 (Result false (Some "Incorrect password"))
  end.

(** [POST /api/change-password]; [salt] is the salt drawn by
    [bcrypt.hash(newPassword, 10)]. *)
Definition change_password (io : faults) (salt : string)
    (oldPassword newPassword : string) : handler response :=
  let* row := db_get io admin_settings in
  match row with
  | Err => respond 500 (Result false (Some "Database error"))
  | Ok row =>
      if password_matches row oldPassword
      then
        let newHash := bcrypt_hash newPassword 10 salt in
        let* err := db_run io (λ d, Some (update_password_hash newHash d)) in
        match err with
        | Err => respond 500 (Result false (Some "Failed to update password"))
        | Ok _ => respond 200 (Result true (Some "Password updated successfully!"))
        end
      else respond 200 (Result false (Some "Old password incorrect"))
  end.

End Handlers.

(** [DELETE /api/content/:id] *)
Definition delete_content (io : faults) (id : Z) : handler response :=
  let* row := db_get io (select_by_id id) in
  match row with
  | Err => respond 500 (Result false (Some "Database error"))
  | Ok row =>
      let* _ := unlink_row_file row in
      let* err := db_run io (λ d, Some (delete_by_id id d)) in
      match err with
      | Err => respond 500 (Result false (Some "Delete failed"))
      | Ok _ => respond 200 (Result true (Some "Deleted successfully"))
      end
  end.

End Bcrypt.

(** ** Predicates used in the statements *)

(** The constraints that SQLite keeps on table [content]: the UNIQUE
    index, the primary key, and AUTOINCREMENT's counter, which is never
    below an id in the table. *)
Record wf (d : database) : Prop := Wf {
  wf_keys : NoDup (key_of <$> content d);
  wf_ids : NoDup (rowid <$> content d);
  wf_seq : Forall (λ r, (rowid r ≤ sqlite_sequence d)%Z) (content d)
}.

(** The row that an upsert writes: the next id, both timestamps now. *)
Definition upserted (now : Z) (s f : string) (c : Z) (ctype : string)
    (fp txt : option string) (d : database) : row :=
  Row (sqlite_sequence d + 1) s f c ctype fp txt now now.

(** The rows that occupy a slot. *)
Definition items_at (k : slot_key) (d : database) : list row :=
  filter (λ r, key_of r = k) (content d).

(** A key as a client has to send it: subject and feature are non-empty
    strings and the chapter is an integer. *)
Definition valid_key (sub feat : option string) (chap : option Z) : Prop :=
  (∃ s, sub = Some s ∧ s ≠ "") ∧ (∃ f, feat = Some f ∧ f ≠ "") ∧ is_Some chap.

(** The row of a file under [uploads/] is the one whose [file_path] is
    ["/uploads/"] followed by the file's name. An orphan is a stored file
    that no row references. *)
Definition referenced (name : string) (d : database) : Prop :=
  ∃ r, r ∈ content d ∧ file_path r = Some ("/uploads/" ++ name).

Definition orphan (name : string) (w : world) : Prop :=
  name ∈ uploads w ∧ ¬ referenced name (db w).

(** [extends d d']: the id counter of [d'] is not below that of [d], and
    every row of [d'] is a row of [d], field for field, or has an id above
    the counter of [d]. *)
Definition extends (d d' : database) : Prop :=
  (sqlite_sequence d ≤ sqlite_sequence d')%Z ∧
  ∀ r, r ∈ content d' → r ∈ content d ∨ (sqlite_sequence d < rowid r)%Z.

(** A state with one uploaded file in slot (math, notes, 1). *)
Definition file_row : row :=
  Row 1 "math" "notes" 1 "file" (Some "/uploads/1700000000000-42.pdf") None
      100 100.

Definition file_world : world :=
  World (Database [file_row] 1 (Some "admin123")) {["1700000000000-42.pdf"]}.

(** The integers that an INTEGER column stores as they are. *)
Definition int64 (z : Z) : Prop :=
  (-9223372036854775808 ≤ z ∧ z ≤ 9223372036854775807)%Z.

#[global] Instance int64_dec z : Decision (int64 z).
Proof. unfold int64. apply _. Defined.

(** Every stored chapter is such an integer. *)
Definition chapters_in_range (d : database) : Prop :=
  Forall (λ r, int64 (chapter r)) (content d).

(** A state with three slots, filled in another order than the listing
    order: (math, notes, 3) first, then (math, notes, 1) with a file,
    then (algebra, notes, 2). *)
Definition shelf_world : world :=
  ServerJs.serve
    [(no_faults, 100%Z,
      ServerJs.SaveText (Some "math") (Some "notes") (Some 3%Z)
        (Some "third") None);
     (no_faults, 110%Z,
      ServerJs.UploadFile (Some "math") (Some "notes") (Some 1%Z)
        (Some "1700000000000-42.pdf") None);
     (no_faults, 120%Z,
      ServerJs.SaveText (Some "algebra") (Some "notes") (Some 2%Z)
        (Some "second") None)]
    ServerJs.init_world.

Module Cred.

(** [verify(candidate)] and [rotate(old, new)] of [src/server.js], with
    no database fault: the [success] flag of the two credential routes. *)
Definition verify (w : world) (candidate : string) : bool :=
  success (fst (ServerJs.verify_password no_faults candidate w)).

Definition rotate (w : world) (old new : string) : bool * world :=
  let (resp, w') := ServerJs.change_password no_faults old new w in
  (success resp, w').

(** The same two operations in the bcrypt variant. *)
Definition verify_bcrypt (cmp : string → string → bool)
    (w : world) (candidate : string) : bool :=
  success (fst (Bcrypt.verify_password cmp no_faults candidate w)).

Definition rotate_bcrypt (hash : string → nat → string → string)
    (cmp : string → string → bool) (salt : string)
    (w : world) (old new : string) : bool * world :=
  let (resp, w') := Bcrypt.change_password hash cmp no_faults salt old new w in
  (success resp, w').

End Cred.

(** The same request with another password attached; the two credential
    routes carry their password as an argument, it is left as it is. *)
Definition with_auth (auth : option string) (req : ServerJs.request)
    : ServerJs.request :=
  match req with
  | ServerJs.UploadFile sub feat chap file _ =>
      ServerJs.UploadFile sub feat chap file auth
  | ServerJs.SaveText sub feat chap text _ =>
      ServerJs.SaveText sub feat chap text auth
  | ServerJs.DeleteContent id _ => ServerJs.DeleteContent id auth
  | other => other
  end.

(** ** The other routes and the upload middleware *)

(** *** [GET /api/all-content] and [GET /download/:filename] *)

(** What these routes send: a JSON body as above, the row list of
    [{success: true, content: rows}], a file sent by [res.download], or an
    error that a middleware hands to Express's error handler. *)
Inductive reply :=
| Json (r : response)
| Rows (rows : list row)
| Attachment (filename : string)
| ExpressError (message : string).

Definition string_lt (a b : string) : Prop := String.le a b ∧ a ≠ b.

(** The order of [ORDER BY subject, feature, chapter]: the two TEXT
    columns compare byte by byte (BINARY collation), the chapter as an
    integer. *)
Definition row_le (r1 r2 : row) : Prop :=
  string_lt (subject r1) (subject r2) ∨
  (subject r1 = subject r2 ∧
   (string_lt (feature r1) (feature r2) ∨
    (feature r1 = feature r2 ∧ (chapter r1 ≤ chapter r2)%Z))).

#[global] Instance row_le_dec : RelDecision row_le.
Proof. intros r1 r2. unfold row_le, string_lt. apply _. Defined.

(** [SELECT * FROM content ORDER BY subject, feature, chapter] *)
Definition select_all_ordered (d : database) : list row :=
  merge_sort row_le (content d).

(** [GET /api/all-content] *)
Definition all_content (io : faults) : handler reply :=
  let* rows := db_get io select_all_ordered in
  match rows with
  | Err => ret (Json (Response 500 (Result false (Some "Database error"))))
  | Ok rows => ret (Rows rows)
  end.

(** [GET /download/:filename]. The route parameter is one path
    component and [uploads/] is a flat directory: the file that
    [path.join(__dirname, 'uploads', filename)] names exists exactly when
    the component is the name of a stored file. Components that
    [path.join] resolves to another place (["."], [".."], an encoded
    slash) are outside this model. *)
Definition download (filename : string) : handler reply :=
  λ w, if decide (filename ∈ uploads w)
       then (Attachment filename, w)
       else (Json (Response 404 (Result false (Some "File not found"))), w).

(** *** The multer configuration *)

(** [path.extname] (POSIX). [ext_from s] is the part of [s] from its last
    dot on. The extension of a path is that part of its last component,
    and is empty when the component has no dot, when its only dot is its
    first character, and when the component is [".."]. *)
Fixpoint ext_from (s : string) : option string :=
  match s with
  | EmptyString => None
  | String c s' =>
      match ext_from s' with
      | Some e => Some e
      | None => if decide (c = "."%char) then Some s else None
      end
  end.

Definition extname (p : string) : string :=
  let b := basename p in
  match ext_from b with
  | Some e => if decide (e = b) then "" else if decide (b = "..") then "" else e
  | None => ""
  end.

(** [toLowerCase] on the letters A to Z. The result is only searched for
    the lower-case words of [allowedTypes], and no other character turns
    into one of their letters. *)
Definition lower_char (c : ascii) : ascii :=
  let n := N_of_ascii c in
  if (65 <=? n)%N && (n <=? 90)%N then ascii_of_N (n + 32) else c.

Fixpoint toLowerCase (s : string) : string :=
  match s with
  | EmptyString => EmptyString
  | String c s' => String (lower_char c) (toLowerCase s')
  end.

(** [pat] occurs in [s]. *)
Fixpoint contains (pat s : string) : bool :=
  String.prefix pat s ||
  match s with
  | EmptyString => false
  | String _ s' => contains pat s'
  end.

(** The regular expression [/pdf|doc|docx|txt|png|jpg|jpeg/] and its
    [test]: the string contains one of the alternatives. *)
Definition allowedTypes : list string :=
  ["pdf"; "doc"; "docx"; "txt"; "png"; "jpg"; "jpeg"].

Definition allowedTypes_test (s : string) : bool :=
  existsb (λ pat, contains pat s) allowedTypes.

(** The uploaded file as multer describes it to the callbacks. *)
Record upload := Upload {
  originalname : string;
  mimetype : string;
  size : N
}.

(** [fileFilter]: [true] is [cb(null, true)], [false] is [cb(new Error)]. *)
Definition fileFilter (file : upload) : bool :=
  let extname_ok := allowedTypes_test (toLowerCase (extname (originalname file))) in
  let mimetype_ok := allowedTypes_test (mimetype file) in
  mimetype_ok && extname_ok.

(** [filename] of the disk storage: [Date.now() + '-' +
    Math.round(Math.random() * 1E9) + path.extname(file.originalname)];
    [ms] and [rnd] are the two numbers. *)
Definition uniqueName (ms rnd : N) (file : upload) : string :=
  pretty ms ++ "-" ++ pretty rnd ++ extname (originalname file).

(** [limits: { fileSize: 50 * 1024 * 1024 }] *)
Definition fileSize_limit : N := 50 * 1024 * 1024.

(** Whether multer counts a file as too large. A file above the limit
    always is. A file of exactly the limit is stored by the multer
    releases up to 1.4.4 and refused by the 1.4.5-lts releases; the
    repository pins no release, so [refuses_at_limit] says which one
    runs. *)
Definition too_large (refuses_at_limit : bool) (sz : N) : bool :=
  if refuses_at_limit
  then (fileSize_limit <=? sz)%N
  else (fileSize_limit <? sz)%N.

(** [upload.single('file')] for a request with at most one file part,
    in the field ['file'] ([file] is what multer hands to the callbacks;
    other shapes of the multipart body, which multer answers with errors
    of its own, are not modelled). A request without a file part passes
    with [req.file] undefined; a file that the filter refuses or that is
    too large is an error and nothing of it stays on disk; any other
    file is stored under its unique name. *)
Definition upload_single (refuses_at_limit : bool) (ms rnd : N)
    (file : option upload) : handler (string + option string) :=
  match file with
  | None => ret (inr None)
  | Some f =>
      if fileFilter f
      then
        if too_large refuses_at_limit (size f)
        then ret (inl "File too large")
        else
          let name := uniqueName ms rnd f in
          let* _ := multer_store name in
          ret (inr (Some name))
      else ret (inl "Only PDF, DOC, DOCX, TXT, and image files are allowed!")
  end.

(** [app.post('/api/upload-file', upload.single('file'), handler)] *)
Definition upload_route (io : faults) (now : Z) (refuses_at_limit : bool)
    (ms rnd : N) (sub feat : option string) (chap : option Z)
    (file : option upload) : handler reply :=
  let* stored := upload_single refuses_at_limit ms rnd file in
  match stored with
  | inl message => ret (ExpressError message)
  | inr filename =>
      let* resp := ServerJs.upload_file io now sub feat chap filename in
      ret (Json resp)
  end.

(** * Properties *)

Local Open Scope list_scope.

(** ** The table operations *)

Section Table.
Implicit Types (l : list row) (r : row) (k : slot_key) (d : database).

Lemma find_key_filtered k l :
  list_find (λ r, key_of r = k) (filter (λ r, key_of r ≠ k) l) = None.
Proof.
  apply list_find_None, Forall_forall.
  by intros r [? _]%list_elem_of_filter.
Qed.

Lemma find_key_appended k l r :
  key_of r = k →
  snd <$> list_find (λ r, key_of r = k)
            (filter (λ r, key_of r ≠ k) l ++ [r]) = Some r.
Proof.
  intros Hk. rewrite list_find_app_r by apply find_key_filtered.
  simpl. by rewrite decide_True.
Qed.

Lemma items_at_replaced k l r :
  key_of r = k →
  filter (λ r, key_of r = k) (filter (λ r, key_of r ≠ k) l ++ [r]) = [r].
Proof.
  intros Hk. rewrite filter_app.
  replace (filter (λ r, key_of r = k) (filter (λ r, key_of r ≠ k) l))
    with (@nil row).
  - simpl. rewrite filter_cons_True by done. by rewrite filter_nil.
  - symmetry. induction l as [|x l IH]; [done|].
    rewrite (filter_cons (λ r, key_of r ≠ k)). case_decide; [|done].
    by rewrite filter_cons_False.
Qed.

Lemma filter_all l (P : row → Prop) `{!∀ r, Decision (P r)} :
  Forall P l → filter P l = l.
Proof.
  induction 1 as [|x l Hx _ IH]; [done|].
  rewrite filter_cons_True by done. by rewrite IH.
Qed.

Lemma select_by_id_None id d :
  select_by_id id d = None ↔ Forall (λ r, rowid r ≠ id) (content d).
Proof.
  unfold select_by_id. rewrite fmap_None. apply list_find_None.
Qed.

Lemma delete_by_id_absent id d :
  select_by_id id d = None → delete_by_id id d = d.
Proof.
  intros H%select_by_id_None. destruct d as [l s a].
  unfold delete_by_id; simpl in *. by rewrite filter_all.
Qed.

Lemma select_by_key_Some k d r :
  select_by_key k d = Some r → r ∈ content d ∧ key_of r = k.
Proof.
  unfold select_by_key. intros ([i x] & Hf & ->)%fmap_Some. simpl.
  apply list_find_Some in Hf as (Hl & Hk & _).
  split; [by eapply list_elem_of_lookup_2|done].
Qed.

Lemma NoDup_fmap_filter {B} (g : row → B) (P : row → Prop)
    `{!∀ r, Decision (P r)} l :
  NoDup (g <$> l) → NoDup (g <$> filter P l).
Proof.
  intros Hnd. eapply sublist_NoDup; [exact Hnd|].
  apply fmap_sublist, sublist_filter.
Qed.

(** The three statements that write to [content] keep its constraints. *)
Lemma insert_or_replace_wf now s f c ctype fp txt d d' :
  wf d → insert_or_replace now s f c ctype fp txt d = Some d' → wf d'.
Proof.
  intros [Hk Hi Hs]. unfold insert_or_replace.
  destruct s as [s|], f as [f|], c as [c|]; try discriminate.
  intros [= <-]. split; simpl.
  - rewrite fmap_app. apply NoDup_app. split_and!.
    + by apply NoDup_fmap_filter.
    + intros k (r & -> & [Hne _]%list_elem_of_filter)%list_elem_of_fmap.
      simpl. rewrite list_elem_of_singleton. intros Heq. by apply Hne.
    + apply NoDup_singleton.
  - rewrite fmap_app. apply NoDup_app. split_and!.
    + by apply NoDup_fmap_filter.
    + intros i (r & -> & [_ Hin]%list_elem_of_filter)%list_elem_of_fmap.
      simpl. rewrite list_elem_of_singleton.
      rewrite Forall_forall in Hs. specialize (Hs r Hin). lia.
    + apply NoDup_singleton.
  - apply Forall_app. split.
    + apply Forall_forall. intros r [_ Hin]%list_elem_of_filter.
      rewrite Forall_forall in Hs. specialize (Hs r Hin). lia.
    + apply Forall_singleton. simpl. lia.
Qed.

Lemma delete_by_id_wf id d : wf d → wf (delete_by_id id d).
Proof.
  intros [Hk Hi Hs]. split; simpl.
  - by apply NoDup_fmap_filter.
  - by apply NoDup_fmap_filter.
  - apply Forall_forall. intros r [_ Hin]%list_elem_of_filter.
    rewrite Forall_forall in Hs. by apply Hs.
Qed.

Lemma update_password_hash_wf h d : wf d → wf (update_password_hash h d).
Proof. intros [Hk Hi Hs]. by split. Qed.

End Table.

(** ** The handlers of [src/server.js] *)

Import ServerJs.

(** Unfold a handler down to the database and file-system calls. *)
Ltac unfold_handler :=
  unfold handle, verify_password, change_password, upload_file, save_text,
    get_content, delete_content, Bcrypt.delete_content, respond, bind, ret,
    db_get, db_run, multer_store;
  simpl.

Lemma insert_or_replace_Some now s f c ctype fp txt d :
  insert_or_replace now (Some s) (Some f) (Some c) ctype fp txt d =
  Some {| content := filter (λ r, key_of r ≠ (s, f, c)) (content d)
                       ++ [upserted now s f c ctype fp txt d];
          sqlite_sequence := sqlite_sequence d + 1;
          admin_settings := admin_settings d |}.
Proof. reflexivity. Qed.

Lemma save_text_ok io now s f c text w :
  run_fails io = false →
  save_text io now (Some s) (Some f) (Some c) text w =
  (Response 200 (Result true (Some "Content saved successfully")),
   World {| content := filter (λ r, key_of r ≠ (s, f, c)) (content (db w))
                         ++ [upserted now s f c "text" None text (db w)];
            sqlite_sequence := sqlite_sequence (db w) + 1;
            admin_settings := admin_settings (db w) |}
         (uploads w)).
Proof. intros Hio. unfold_handler. by rewrite Hio. Qed.

Lemma upload_file_ok io now s f c name w :
  run_fails io = false →
  upload_file io now (Some s) (Some f) (Some c) (Some name) w =
  (Response 200 (Uploaded "File uploaded successfully" ("/uploads/" ++ name)%string),
   World {| content := filter (λ r, key_of r ≠ (s, f, c)) (content (db w))
                         ++ [upserted now s f c "file"
                               (Some ("/uploads/" ++ name)%string) None (db w)];
            sqlite_sequence := sqlite_sequence (db w) + 1;
            admin_settings := admin_settings (db w) |}
         (uploads w)).
Proof. intros Hio. unfold_handler. by rewrite Hio. Qed.

Lemma unlink_row_file_db row w : db (snd (unlink_row_file row w)) = db w.
Proof.
  unfold unlink_row_file, unlink_if_exists, ret.
  destruct row as [r|]; [|done].
  destruct (truthy _); [|done]. by case_decide.
Qed.

Lemma db_run_wf io stmt w :
  wf (db w) →
  (∀ d', stmt (db w) = Some d' → wf d') →
  wf (db (snd (db_run io stmt w))).
Proof.
  intros Hw Hstmt. unfold db_run.
  destruct (run_fails io); [done|].
  destruct (stmt (db w)) as [d'|] eqn:E; [by apply Hstmt|done].
Qed.

(** Every route keeps the table constraints. *)
Lemma handle_wf io now req w :
  wf (db w) → wf (db (snd (handle io now req w))).
Proof.
  intros Hw. destruct req as [p|old new|sub feat chap file a
                             |sub feat chap text a|sub feat chap|id a].
  - unfold_handler. destruct (get_fails io); [done|].
    by destruct (password_matches _ _).
  - unfold_handler. destruct (get_fails io); [done|].
    destruct (password_matches _ _); [|done].
    destruct (run_fails io); [done|]. simpl.
    by apply update_password_hash_wf.
  - unfold_handler. destruct file as [name|]; [|done]. simpl.
    destruct (run_fails io); [done|].
    destruct (insert_or_replace _ _ _ _ _ _ _ _) as [d'|] eqn:E; [|done].
    simpl. eapply insert_or_replace_wf; [exact Hw|exact E].
  - unfold_handler. destruct (run_fails io); [done|].
    destruct (insert_or_replace _ _ _ _ _ _ _ _) as [d'|] eqn:E; [|done].
    simpl. eapply insert_or_replace_wf; [exact Hw|exact E].
  - unfold_handler. destruct (get_fails io); [done|].
    by destruct (select_by_key _ _).
  - unfold_handler. destruct (get_fails io); [done|].
    pose proof (unlink_row_file_db (select_by_id id (db w)) w) as Hdb.
    destruct (unlink_row_file _ w) as [[] w1]. simpl in Hdb.
    destruct (run_fails io); simpl; [by rewrite Hdb|].
    rewrite Hdb. by apply delete_by_id_wf.
Qed.

Lemma init_world_wf : wf (db init_world).
Proof. split; simpl; constructor. Qed.

Lemma serve_wf reqs w : wf (db w) → wf (db (serve reqs w)).
Proof.
  revert w. induction reqs as [|[[io now] req] rest IH]; intros w Hw; [done|].
  simpl. by apply IH, handle_wf.
Qed.

Lemma reachable_wf w : reachable w → wf (db w).
Proof. intros [reqs <-]. apply serve_wf, init_world_wf. Qed.

(** C3. In every state that the server reaches, no two rows of [content]
    have the same slot key; and two [save-text] requests for one key, with
    texts [a] and then [b], leave exactly one row for that key, whose
    text is [b]. *)
Theorem one_item_per_key :
  (∀ reqs, NoDup (key_of <$> content (db (serve reqs init_world)))) ∧
  (∀ w s f c a b now1 now2 auth1 auth2,
     let first := SaveText (Some s) (Some f) (Some c) (Some a) auth1 in
     let second := SaveText (Some s) (Some f) (Some c) (Some b) auth2 in
     let w' := serve [(no_faults, now1, first); (no_faults, now2, second)] w in
     ∃ r, items_at (s, f, c) (db w') = [r] ∧
          text_content r = Some b ∧ content_type r = "text").
Proof.
  split.
  - intros reqs. apply wf_keys, serve_wf, init_world_wf.
  - intros w s f c a b now1 now2 auth1 auth2. cbv zeta.
    unfold serve, handle.
    rewrite (save_text_ok _ _ _ _ _ _ w) by done. cbn [snd].
    rewrite save_text_ok by done. cbn [snd db content].
    eexists. split.
    + unfold items_at. cbn [db content]. by apply items_at_replaced.
    + by split.
Qed.

Lemma NoDup_fmap_eq {B} (g : row → B) (l : list row) x y :
  NoDup (g <$> l) → x ∈ l → y ∈ l → g x = g y → x = y.
Proof.
  induction l as [|z l IH]; [by intros _ ?%elem_of_nil|].
  rewrite fmap_cons, NoDup_cons. intros [Hz Hl].
  rewrite !elem_of_cons. intros [->|Hx] [->|Hy] Hg; [done| | |by apply IH].
  - destruct Hz. rewrite Hg. by apply list_elem_of_fmap_2.
  - destruct Hz. rewrite <- Hg. by apply list_elem_of_fmap_2.
Qed.

(** What a put writes when the statement runs: the rows of other slots
    stay, the slot gets the new row, the counter moves on. *)
Lemma handle_put io now s f c p auth w :
  run_fails io = false →
  ∃ resp ctype fp txt,
    handle io now (put (s, f, c) p auth) w =
    (resp,
     World {| content := filter (λ r, key_of r ≠ (s, f, c)) (content (db w))
                           ++ [upserted now s f c ctype fp txt (db w)];
              sqlite_sequence := sqlite_sequence (db w) + 1;
              admin_settings := admin_settings (db w) |}
           (match p with
            | FileBlob name => {[name]} ∪ uploads w
            | Text _ => uploads w
            end)) ∧
    success resp = true ∧
    match p with
    | FileBlob name =>
        ctype = "file" ∧ fp = Some ("/uploads/" ++ name)%string ∧ txt = None
    | Text text => ctype = "text" ∧ fp = None ∧ txt = Some text
    end.
Proof.
  intros Hio. destruct p as [name|text]; unfold put, handle.
  - unfold bind, multer_store. rewrite upload_file_ok by done.
    by eexists _, _, _, _.
  - rewrite save_text_ok by done. by eexists _, _, _, _.
Qed.

(** Deleting an id that no row has: nothing is unlinked, the DELETE
    removes no row, and the answer is the one of a successful delete. *)
Lemma delete_content_absent id w :
  select_by_id id (db w) = None →
  delete_content no_faults id w =
  (Response 200 (Result true (Some "Content deleted successfully")), w).
Proof.
  intros Hid. unfold_handler. rewrite Hid. simpl.
  rewrite delete_by_id_absent by done. by destruct w.
Qed.

Lemma old_id_gone now s f c ctype fp txt d old :
  wf d → select_by_key (s, f, c) d = Some old →
  Forall (λ r, rowid r ≠ rowid old)
    (filter (λ r, key_of r ≠ (s, f, c)) (content d)
       ++ [upserted now s f c ctype fp txt d]).
Proof.
  intros [Hk Hi Hs] [Hin Hkey]%select_by_key_Some.
  rewrite Forall_forall in Hs.
  apply Forall_app. split.
  - apply Forall_forall. intros r [Hne Hr]%list_elem_of_filter Heq.
    apply Hne. rewrite <- Hkey. f_equal.
    by eapply NoDup_fmap_eq.
  - apply Forall_singleton. simpl. specialize (Hs old Hin). lia.
Qed.

(** C9. For a valid key and any text, the empty one included, a
    [save-text] request that meets no database fault succeeds, and a
    [get] of the same key then returns a row with that text and type
    ['text']. *)
Theorem put_text_then_get io io' now now' sub feat chap text auth w :
  valid_key sub feat chap → run_fails io = false → get_fails io' = false →
  ∃ s f c r,
    sub = Some s ∧ feat = Some f ∧ chap = Some c ∧
    success (fst (handle io now (SaveText sub feat chap (Some text) auth) w))
      = true ∧
    fst (handle io' now' (GetContent s f c)
           (snd (handle io now (SaveText sub feat chap (Some text) auth) w)))
      = Response 200 (Found r) ∧
    text_content r = Some text ∧ content_type r = "text".
Proof.
  intros ((s & -> & _) & (f & -> & _) & (c & ->)) Hio Hio'.
  exists s, f, c, (upserted now s f c "text" None (Some text) (db w)).
  unfold handle. rewrite save_text_ok by done. cbn [fst snd].
  split_and!; try done.
  unfold get_content, bind, db_get. rewrite Hio'. cbn [db].
  unfold select_by_key. cbn [content]. by rewrite find_key_appended.
Qed.

Lemma put_text_then_get_witness :
  valid_key (Some "math") (Some "notes") (Some 1%Z) ∧
  ∃ s f c r,
    Some "math" = Some s ∧ Some "notes" = Some f ∧ Some 1%Z = Some c ∧
    success (fst (handle no_faults 10
                    (SaveText (Some "math") (Some "notes") (Some 1%Z)
                       (Some "") None) init_world)) = true ∧
    fst (handle no_faults 20 (GetContent s f c)
           (snd (handle no_faults 10
                   (SaveText (Some "math") (Some "notes") (Some 1%Z)
                      (Some "") None) init_world)))
      = Response 200 (Found r) ∧
    text_content r = Some "" ∧ content_type r = "text".
Proof.
  assert (valid_key (Some "math") (Some "notes") (Some 1%Z)) as Hv.
  { split_and!; [by exists "math"|by exists "notes"|by exists 1%Z]. }
  split; [exact Hv|].
  apply (put_text_then_get no_faults no_faults 10 20
           (Some "math") (Some "notes") (Some 1%Z) "" None init_world Hv);
    reflexivity.
Defined.

(** [file_world] is the state after one upload to a new server. *)
Lemma file_world_reachable : reachable file_world.
Proof.
  exists [(no_faults, 100%Z,
           UploadFile (Some "math") (Some "notes") (Some 1%Z)
             (Some "1700000000000-42.pdf") None)].
  reflexivity.
Qed.

Lemma put_text_on_file_world :
  handle no_faults 200 (put ("math", "notes", 1%Z) (Text "B") None) file_world =
  (Response 200 (Result true (Some "Content saved successfully")),
   World (Database [Row 2 "math" "notes" 1 "text" None (Some "B") 200 200]
            2 (Some "admin123"))
         {["1700000000000-42.pdf"]}).
Proof. reflexivity. Qed.

(** C4, counterexample. The slot (math, notes, 1) holds a row created at
    time 100; a [put_text] at time 200 leaves a row created at time 200. *)
Lemma replace_resets_created_at :
  select_by_key ("math", "notes", 1%Z) (db file_world) = Some file_row ∧
  created_at file_row = 100%Z ∧
  ∃ r,
    select_by_key ("math", "notes", 1%Z)
      (db (snd (handle no_faults 200
                  (put ("math", "notes", 1%Z) (Text "B") None) file_world)))
      = Some r ∧
    created_at r = 200%Z ∧ created_at r ≠ created_at file_row.
Proof.
  rewrite put_text_on_file_world. split_and!; [done..|].
  eexists. split_and!; [reflexivity|done|done].
Qed.

(** C4, amended. A [put_file] or [put_text] whose statement runs leaves,
    at its key, a row whose [created_at] and [updated_at] are both the
    time of this write, whatever row the slot held before. *)
Theorem put_sets_created_at io now s f c p auth w :
  run_fails io = false →
  ∃ r,
    select_by_key (s, f, c) (db (snd (handle io now (put (s, f, c) p auth) w)))
      = Some r ∧
    created_at r = now ∧ updated_at r = now.
Proof.
  intros Hio.
  destruct (handle_put io now s f c p auth w Hio)
    as (resp & ctype & fp & txt & -> & _ & _).
  exists (upserted now s f c ctype fp txt (db w)).
  split; [|done]. unfold select_by_key. cbn [snd db content].
  by rewrite find_key_appended.
Qed.

Lemma put_sets_created_at_witness :
  ∃ r,
    select_by_key ("math", "notes", 1%Z)
      (db (snd (handle no_faults 200
                  (put ("math", "notes", 1%Z) (FileBlob "1700000000200-7.png")
                     None) file_world)))
      = Some r ∧
    created_at r = 200%Z ∧ updated_at r = 200%Z.
Proof.
  apply (put_sets_created_at no_faults 200 "math" "notes" 1
           (FileBlob "1700000000200-7.png") None file_world).
  reflexivity.
Defined.

(** C10, counterexample. After a replace of slot (math, notes, 1) the old
    id 1 has no row, and a delete with that id is answered with
    [success: true], the answer of a delete that removed a row. *)
Lemma stale_id_delete_reports_success :
  let w' := snd (handle no_faults 200
                   (put ("math", "notes", 1%Z) (Text "B") None) file_world) in
  select_by_id 1 (db file_world) = Some file_row ∧
  select_by_id 1 (db w') = None ∧
  fst (handle no_faults 300 (DeleteContent 1 None) w') =
    Response 200 (Result true (Some "Content deleted successfully")).
Proof. rewrite put_text_on_file_world. by split_and!. Qed.

(** C10, amended. A replace whose statement runs gives the slot a row
    with an id above the old one; no row has the old id any more; and a
    delete with the old id changes nothing, neither the row now in the
    slot nor any file, and answers [success: true]. *)
Theorem replace_gives_fresh_id io now now' s f c p auth auth' old w :
  wf (db w) → run_fails io = false →
  select_by_key (s, f, c) (db w) = Some old →
  let w' := snd (handle io now (put (s, f, c) p auth) w) in
  ∃ new,
    select_by_key (s, f, c) (db w') = Some new ∧
    (rowid old < rowid new)%Z ∧
    select_by_id (rowid old) (db w') = None ∧
    handle no_faults now' (DeleteContent (rowid old) auth') w' =
      (Response 200 (Result true (Some "Content deleted successfully")), w').
Proof.
  intros Hwf Hio Hold. cbv zeta.
  destruct (handle_put io now s f c p auth w Hio)
    as (resp & ctype & fp & txt & -> & _ & _).
  cbn [snd]. exists (upserted now s f c ctype fp txt (db w)).
  assert (select_by_id (rowid old)
            {| content := filter (λ r, key_of r ≠ (s, f, c)) (content (db w))
                            ++ [upserted now s f c ctype fp txt (db w)];
               sqlite_sequence := sqlite_sequence (db w) + 1;
               admin_settings := admin_settings (db w) |} = None) as Hgone.
  { apply select_by_id_None. cbn [content]. by eapply old_id_gone. }
  split_and!.
  - unfold select_by_key. cbn [db content]. by rewrite find_key_appended.
  - destruct Hwf as [_ _ Hs]. rewrite Forall_forall in Hs.
    apply select_by_key_Some in Hold as [Hin _].
    specialize (Hs old Hin). simpl. lia.
  - exact Hgone.
  - unfold handle. by apply delete_content_absent.
Qed.

Lemma file_world_wf : wf (db file_world).
Proof. apply reachable_wf, file_world_reachable. Qed.

Lemma replace_gives_fresh_id_witness :
  let w' := snd (handle no_faults 200
                   (put ("math", "notes", 1%Z) (Text "B") None) file_world) in
  ∃ new,
    select_by_key ("math", "notes", 1%Z) (db w') = Some new ∧
    (rowid file_row < rowid new)%Z ∧
    select_by_id (rowid file_row) (db w') = None ∧
    handle no_faults 300 (DeleteContent (rowid file_row) None) w' =
      (Response 200 (Result true (Some "Content deleted successfully")), w').
Proof.
  apply (replace_gives_fresh_id no_faults 200 300 "math" "notes" 1
           (Text "B") None None file_row file_world).
  - exact file_world_wf.
  - reflexivity.
  - reflexivity.
Defined.

(** C6, counterexample. No row has id 7 in the initial state, and the
    delete of id 7 is answered with [success: true]. *)
Lemma delete_unknown_id_reports_success :
  select_by_id 7 (db init_world) = None ∧
  fst (handle no_faults 0 (DeleteContent 7 None) init_world) =
    Response 200 (Result true (Some "Content deleted successfully")) ∧
  success (fst (handle no_faults 0 (DeleteContent 7 None) init_world)) = true.
Proof. by split_and!. Qed.

(** C6, amended. For an id that no row has, the delete route, in both
    variants of the server, leaves the state as it is and answers with
    status 200 and [success: true], the answer it gives when it removed
    a row. *)
Theorem delete_unknown_id id w :
  select_by_id id (db w) = None →
  delete_content no_faults id w =
    (Response 200 (Result true (Some "Content deleted successfully")), w) ∧
  Bcrypt.delete_content no_faults id w =
    (Response 200 (Result true (Some "Deleted successfully")), w).
Proof.
  intros Hid. split; [by apply delete_content_absent|].
  unfold_handler. rewrite Hid. simpl.
  rewrite delete_by_id_absent by done. by destruct w.
Qed.

Lemma delete_unknown_id_witness :
  delete_content no_faults 7 init_world =
    (Response 200 (Result true (Some "Content deleted successfully")),
     init_world) ∧
  Bcrypt.delete_content no_faults 7 init_world =
    (Response 200 (Result true (Some "Deleted successfully")), init_world).
Proof. apply (delete_unknown_id 7 init_world). reflexivity. Defined.

(** ** Files and rows *)

(** Settle a decidable closed goal by evaluation. *)
Ltac by_compute :=
  match goal with
  | |- ?P => apply (bool_decide_unpack P); vm_compute; exact I
  end.

(** C1, counterexample. Slot (math, notes, 1) holds a FILE row whose blob
    is in [uploads/]; after a [put_text] on that key the blob is still
    there and no row references it. *)
Lemma put_text_leaves_orphan :
  select_by_key ("math", "notes", 1%Z) (db file_world) = Some file_row ∧
  content_type file_row = "file" ∧
  file_path file_row = Some "/uploads/1700000000000-42.pdf" ∧
  orphan "1700000000000-42.pdf"
    (snd (handle no_faults 200
            (put ("math", "notes", 1%Z) (Text "B") None) file_world)).
Proof.
  rewrite put_text_on_file_world. split_and!; [done..|].
  split; cbn [snd db content].
  - by_compute.
  - intros (r & Hin & Hfp). apply list_elem_of_singleton in Hin as ->.
    discriminate Hfp.
Qed.

(** C1, amended. A put removes no blob, whether its statement runs or
    fails: after [put_text] the [uploads/] directory is as before, after
    [put_file] it is as before plus the file of this upload. The blob
    that the replaced row referenced stays. *)
Theorem put_removes_no_blob io now k p auth w :
  uploads (snd (handle io now (put k p auth) w)) =
  match p with
  | FileBlob name => {[name]} ∪ uploads w
  | Text _ => uploads w
  end.
Proof.
  destruct k as [[s f] c], p as [name|text]; unfold put; unfold_handler;
    destruct (run_fails io); done.
Qed.

(** C5, counterexample. The DELETE statement for row 1 fails: the
    answer is 500 and the row is still there, but its blob has been
    unlinked. *)
Lemma delete_unlinks_before_failed_write :
  let io := Faults false true in
  let resp := fst (handle io 300 (DeleteContent 1 None) file_world) in
  let w' := snd (handle io 300 (DeleteContent 1 None) file_world) in
  resp = Response 500 (Result false (Some "Failed to delete")) ∧
  db w' = db file_world ∧
  ("1700000000000-42.pdf" ∈ uploads file_world) ∧
  ("1700000000000-42.pdf" ∉ uploads w') ∧
  w' ≠ file_world.
Proof.
  cbv zeta.
  assert (handle (Faults false true) 300 (DeleteContent 1 None) file_world =
          (Response 500 (Result false (Some "Failed to delete")),
           World (db file_world) ∅)) as ->
    by reflexivity.
  assert ("1700000000000-42.pdf" ∈ uploads file_world) as Hin
    by (by_compute).
  split_and!; [done|done|exact Hin|apply not_elem_of_empty|].
  intros Heq. rewrite <- Heq in Hin. by apply not_elem_of_empty in Hin.
Qed.

Lemma unlink_row_file_Some r p w :
  file_path r = Some p → p ≠ "" →
  unlink_row_file (Some r) w = (tt, World (db w) (uploads w ∖ {[basename p]})).
Proof.
  intros Hp Hne. unfold unlink_row_file, unlink_if_exists, truthy.
  rewrite Hp. rewrite bool_decide_true by done. simpl.
  case_decide as Hin; [done|].
  rewrite difference_disjoint_L by by apply disjoint_singleton_r.
  by destruct w.
Qed.

(** C5, amended. In both variants the delete route unlinks the blob of
    the row before it runs the DELETE statement: when that statement
    fails, the answer is 500, the database is as it was, and the file
    named by the row's [file_path] is already gone from [uploads/]. *)
Theorem delete_unlinks_before_row io id r p w :
  get_fails io = false → run_fails io = true →
  select_by_id id (db w) = Some r → file_path r = Some p → p ≠ "" →
  delete_content io id w =
    (Response 500 (Result false (Some "Failed to delete")),
     World (db w) (uploads w ∖ {[basename p]})) ∧
  Bcrypt.delete_content io id w =
    (Response 500 (Result false (Some "Delete failed")),
     World (db w) (uploads w ∖ {[basename p]})).
Proof.
  intros Hget Hrun Hid Hp Hne.
  unfold delete_content, Bcrypt.delete_content, bind, db_get, db_run, respond, ret.
  rewrite Hget, Hid, (unlink_row_file_Some r p w Hp Hne), Hrun. done.
Qed.

Lemma delete_unlinks_before_row_witness :
  delete_content (Faults false true) 1 file_world =
    (Response 500 (Result false (Some "Failed to delete")),
     World (db file_world)
       (uploads file_world ∖ {[basename "/uploads/1700000000000-42.pdf"]})) ∧
  Bcrypt.delete_content (Faults false true) 1 file_world =
    (Response 500 (Result false (Some "Delete failed")),
     World (db file_world)
       (uploads file_world ∖ {[basename "/uploads/1700000000000-42.pdf"]})).
Proof.
  apply (delete_unlinks_before_row (Faults false true) 1 file_row
           "/uploads/1700000000000-42.pdf" file_world);
    try reflexivity.
  intros H. discriminate H.
Defined.

(** ** Credentials *)

(** C2, counterexample. On the initial state, whose password is
    ['admin123'], a [save-text] request with no password, and one with
    the wrong password ['wrong'], both succeed and both write a row. *)
Lemma save_text_needs_no_credential :
  let anonymous :=
    SaveText (Some "math") (Some "notes") (Some 1%Z) (Some "x") None in
  let wrong :=
    SaveText (Some "math") (Some "notes") (Some 1%Z) (Some "x") (Some "wrong") in
  credential anonymous = None ∧
  credential wrong = Some "wrong" ∧ Cred.verify init_world "wrong" = false ∧
  success (fst (handle no_faults 10 anonymous init_world)) = true ∧
  success (fst (handle no_faults 10 wrong init_world)) = true ∧
  content (db (snd (handle no_faults 10 anonymous init_world))) ≠ [] ∧
  content (db (snd (handle no_faults 10 wrong init_world))) ≠ [] ∧
  content (db init_world) = [].
Proof. by split_and!. Qed.

Lemma insert_or_replace_admin now s f c ctype fp txt d d' :
  insert_or_replace now s f c ctype fp txt d = Some d' →
  admin_settings d' = admin_settings d.
Proof.
  unfold insert_or_replace.
  destruct s, f, c; try discriminate. by intros [= <-].
Qed.

Lemma db_run_admin io stmt w :
  (∀ d', stmt (db w) = Some d' → admin_settings d' = admin_settings (db w)) →
  admin_settings (db (snd (db_run io stmt w))) = admin_settings (db w).
Proof.
  intros Hstmt. unfold db_run. destruct (run_fails io); [done|].
  destruct (stmt (db w)) as [d'|] eqn:E; [by apply Hstmt|done].
Qed.

(** C2, amended. Only the credential store is guarded. The stored
    password changes only through a change-password request whose old
    password verifies against the state the request meets, in both
    variants; and every route of [src/server.js] does the same, and
    answers the same, whatever password is attached to an upload,
    save-text or delete request. *)
Theorem only_rotation_checks_credential io now req w :
  (admin_settings (db (snd (handle io now req w))) ≠ admin_settings (db w) →
   ∃ p, credential req = Some p ∧ Cred.verify w p = true) ∧
  (∀ hash cmp salt old new,
     admin_settings
       (db (snd (Bcrypt.change_password hash cmp io salt old new w)))
       ≠ admin_settings (db w) →
     Cred.verify_bcrypt cmp w old = true) ∧
  (∀ auth, handle io now (with_auth auth req) w = handle io now req w).
Proof.
  split_and!.
  - destruct req as [p|old new|sub feat chap file a
                    |sub feat chap text a|sub feat chap|id a];
      intros Hchg.
    + exfalso. apply Hchg. unfold_handler. destruct (get_fails io); [done|].
      by destruct (password_matches _ _).
    + exists old. split; [done|].
      unfold Cred.verify. revert Hchg. unfold_handler.
      destruct (get_fails io); [done|].
      destruct (password_matches _ _); [done|]. simpl. done.
    + exfalso. apply Hchg. unfold handle, upload_file, bind, respond, ret.
      destruct file as [name|]; [|done].
      unfold multer_store.
      set (w1 := World (db w) ({[name]} ∪ uploads w)).
      pose proof (db_run_admin io
        (insert_or_replace now sub feat chap "file"
           (Some ("/uploads/" ++ name)%string) None) w1
        (λ d', insert_or_replace_admin _ _ _ _ _ _ _ _ d')) as Hadm.
      destruct (db_run io _ w1) as [[|[]] w2]; exact Hadm.
    + exfalso. apply Hchg. unfold handle, save_text, bind, respond, ret.
      pose proof (db_run_admin io
        (insert_or_replace now sub feat chap "text" None text) w
        (λ d', insert_or_replace_admin _ _ _ _ _ _ _ _ d')) as Hadm.
      destruct (db_run io _ w) as [[|[]] w2]; exact Hadm.
    + exfalso. apply Hchg. unfold_handler. destruct (get_fails io); [done|].
      by destruct (select_by_key _ _).
    + exfalso. apply Hchg. unfold_handler. destruct (get_fails io); [done|].
      pose proof (unlink_row_file_db (select_by_id id (db w)) w) as Hdb.
      destruct (unlink_row_file _ w) as [[] w1]. simpl in Hdb.
      destruct (run_fails io); simpl; by rewrite Hdb.
  - intros hash cmp salt old new. unfold Cred.verify_bcrypt.
    unfold Bcrypt.change_password, Bcrypt.verify_password,
      respond, bind, ret, db_get, db_run. simpl.
    destruct (get_fails io); [done|].
    destruct (Bcrypt.password_matches _ _ _); [done|]. simpl. done.
  - intros auth. by destruct req.
Qed.

Lemma only_rotation_checks_credential_witness :
  ∃ p, credential (ChangePassword "admin123" "s3cret") = Some p ∧
       Cred.verify init_world p = true.
Proof.
  apply (proj1 (only_rotation_checks_credential no_faults 0
                  (ChangePassword "admin123" "s3cret") init_world)).
  simpl. intros H. discriminate H.
Defined.

(** C7. In [src/server.js] the stored credential is the password itself
    and [verify] is equality with it: [initDatabase] stores the default
    password as it is, [verify] answers whether the candidate equals the
    stored string, and a rotation stores the new password as it is. *)
Theorem verify_is_plain_equality :
  admin_settings (db init_world) = Some "admin123" ∧
  (∀ w p, Cred.verify w p = bool_decide (admin_settings (db w) = Some p)) ∧
  (∀ new,
     admin_settings (db (snd (Cred.rotate init_world "admin123" new)))
     = Some new).
Proof.
  split_and!; [done| |done].
  intros w p. unfold Cred.verify. unfold_handler.
  destruct (admin_settings (db w)) as [h|]; simpl; [|done].
  destruct (decide (h = p)) as [->|Hne].
  - by rewrite !bool_decide_true.
  - rewrite !bool_decide_false; [done|congruence|done].
Qed.

(** C8, counterexample. Rotating the default password to itself
    succeeds, and the old password still verifies afterwards. *)
Lemma rotate_to_same_password :
  Cred.verify init_world "admin123" = true ∧
  fst (Cred.rotate init_world "admin123" "admin123") = true ∧
  Cred.verify (snd (Cred.rotate init_world "admin123" "admin123")) "admin123"
    = true.
Proof. by split_and!. Qed.

Lemma rotate_plain w old new :
  fst (Cred.rotate w old new) = Cred.verify w old ∧
  (fst (Cred.rotate w old new) = true →
   admin_settings (db (snd (Cred.rotate w old new))) = Some new).
Proof.
  unfold Cred.rotate, Cred.verify. unfold_handler.
  destruct (admin_settings (db w)) as [h|] eqn:E; simpl; [|done].
  destruct (bool_decide (h = old)); simpl; [|done].
  split; [done|]. intros _. by rewrite E.
Qed.

Lemma rotate_bcrypt hash cmp salt w old new :
  fst (Cred.rotate_bcrypt hash cmp salt w old new)
    = Cred.verify_bcrypt cmp w old ∧
  (fst (Cred.rotate_bcrypt hash cmp salt w old new) = true →
   admin_settings (db (snd (Cred.rotate_bcrypt hash cmp salt w old new)))
     = Some (hash new 10 salt)).
Proof.
  unfold Cred.rotate_bcrypt, Cred.verify_bcrypt.
  unfold Bcrypt.change_password, Bcrypt.verify_password,
    respond, bind, ret, db_get, db_run. simpl.
  destruct (admin_settings (db w)) as [h|] eqn:E; simpl; [|done].
  destruct (cmp old h); simpl; [|done].
  split; [done|]. intros _. by rewrite E.
Qed.

(** C8, amended. Without a database fault, [rotate(old, new)] succeeds
    exactly when [verify(old)] is true at the call, in both variants.
    After a successful rotation the stored credential comes from [new]
    alone. In [src/server.js], [verify(new)] is true and [verify(old)] is
    false when [old] and [new] differ. In the bcrypt variant,
    [verify(x)] is [bcrypt.compare(x, h)] for the fresh hash [h] of
    [new], for every candidate [x]: it is true for [new] as far as
    [bcrypt.compare] accepts a password against its own hash, and false
    for [old] as far as [bcrypt.compare] tells [old] from [new]. *)
Theorem rotate_then_verify hash cmp salt w old new :
  (fst (Cred.rotate w old new) = Cred.verify w old ∧
   (fst (Cred.rotate w old new) = true →
    Cred.verify (snd (Cred.rotate w old new)) new = true ∧
    (old ≠ new → Cred.verify (snd (Cred.rotate w old new)) old = false))) ∧
  (fst (Cred.rotate_bcrypt hash cmp salt w old new)
     = Cred.verify_bcrypt cmp w old ∧
   (fst (Cred.rotate_bcrypt hash cmp salt w old new) = true →
    ∀ x, Cred.verify_bcrypt cmp
           (snd (Cred.rotate_bcrypt hash cmp salt w old new)) x
         = cmp x (hash new 10 salt))).
Proof.
  split.
  - destruct (rotate_plain w old new) as [Hiff Hnew].
    split; [exact Hiff|]. intros Hok. specialize (Hnew Hok).
    unfold Cred.verify. unfold_handler. rewrite Hnew. simpl. split.
    + by rewrite bool_decide_true.
    + intros Hne. by rewrite bool_decide_false.
  - destruct (rotate_bcrypt hash cmp salt w old new) as [Hiff Hnew].
    split; [exact Hiff|]. intros Hok x. specialize (Hnew Hok).
    unfold Cred.verify_bcrypt.
    unfold Bcrypt.verify_password, respond, bind, ret, db_get. simpl.
    rewrite Hnew. simpl. by destruct (cmp x (hash new 10 salt)).
Qed.

Lemma rotate_then_verify_witness :
  let hash := λ (data : string) (rounds : nat) (salt : string),
    substring 0 29 salt +:+ substring 0 72 data in
  let cmp := λ (data h : string),
    bool_decide (h = substring 0 29 h +:+ substring 0 72 data) in
  let salt0 := "$2b$10$abcdefghijklmnopqrstuv" in
  let salt1 := "$2b$10$ABCDEFGHIJKLMNOPQRSTUV" in
  let w := World (Bcrypt.initDatabase hash salt0 (Database [] 0 None)) ∅ in
  (fst (Cred.rotate init_world "admin123" "s3cret")
     = Cred.verify init_world "admin123" ∧
   Cred.verify (snd (Cred.rotate init_world "admin123" "s3cret")) "s3cret"
     = true ∧
   Cred.verify (snd (Cred.rotate init_world "admin123" "s3cret")) "admin123"
     = false) ∧
  (fst (Cred.rotate_bcrypt hash cmp salt1 w "admin123" "s3cret")
     = Cred.verify_bcrypt cmp w "admin123" ∧
   Cred.verify_bcrypt cmp
     (snd (Cred.rotate_bcrypt hash cmp salt1 w "admin123" "s3cret")) "s3cret"
     = true ∧
   Cred.verify_bcrypt cmp
     (snd (Cred.rotate_bcrypt hash cmp salt1 w "admin123" "s3cret")) "admin123"
     = false).
Proof.
  intros hash cmp salt0 salt1 w.
  destruct (rotate_then_verify hash cmp salt1 init_world "admin123" "s3cret")
    as [(Hiff & Hafter) _].
  destruct (rotate_then_verify hash cmp salt1 w "admin123" "s3cret")
    as [_ (Hiff' & Hafter')].
  destruct (Hafter eq_refl) as [Hnew Hold].
  pose proof (Hafter' eq_refl) as Hx.
  split; (split; [assumption|split]).
  - exact Hnew.
  - apply Hold. intros H. discriminate H.
  - rewrite (Hx "s3cret"). reflexivity.
  - rewrite (Hx "admin123"). reflexivity.
Defined.

(** Why the bcrypt half speaks of [bcrypt.compare] and not of [old] and
    [new] being different: with a compare that reads only the first 72
    bytes of the password, as bcrypt does, a rotation between two
    different passwords that agree on those bytes succeeds and the old
    password still verifies. *)
Lemma rotate_bcrypt_prefix :
  let hash := λ (data : string) (rounds : nat) (salt : string),
    substring 0 29 salt +:+ substring 0 72 data in
  let cmp := λ (data h : string),
    bool_decide (h = substring 0 29 h +:+ substring 0 72 data) in
  let salt0 := "$2b$10$abcdefghijklmnopqrstuv" in
  let salt1 := "$2b$10$ABCDEFGHIJKLMNOPQRSTUV" in
  let old := "aaaaaaaaaaaaaaaaaaaaaaaaaaaaaaaaaaaaaaaaaaaaaaaaaaaaaaaaaaaaaaaaaaaaaaaax" in
  let new := "aaaaaaaaaaaaaaaaaaaaaaaaaaaaaaaaaaaaaaaaaaaaaaaaaaaaaaaaaaaaaaaaaaaaaaaay" in
  let w := World (Bcrypt.initDatabase hash salt0 (Database [] 0 None)) ∅ in
  let w1 := snd (Cred.rotate_bcrypt hash cmp salt1 w "admin123" old) in
  old ≠ new ∧
  fst (Cred.rotate_bcrypt hash cmp salt1 w "admin123" old) = true ∧
  fst (Cred.rotate_bcrypt hash cmp salt1 w1 old new) = true ∧
  Cred.verify_bcrypt cmp
    (snd (Cred.rotate_bcrypt hash cmp salt1 w1 old new)) old = true.
Proof. by split_and!. Qed.

(** * Further properties of the routes *)

(** ** Lookups *)

Lemma find_head {A} (P : A → Prop) `{!∀ x, Decision (P x)} (l : list A) :
  snd <$> list_find P l = head (filter P l).
Proof.
  induction l as [|x l IH]; [done|].
  rewrite filter_cons. simpl. case_decide; [done|].
  rewrite <- IH. by destruct (list_find P l) as [[]|].
Qed.


Lemma select_by_key_None k d :
  select_by_key k d = None ↔ ∀ r, r ∈ content d → key_of r ≠ k.
Proof.
  unfold select_by_key. rewrite fmap_None, list_find_None, Forall_forall.
  done.
Qed.

Lemma file_world_in_range : chapters_in_range (db file_world).
Proof. apply Forall_singleton. unfold int64. simpl. lia. Qed.



(** ** What a put leaves alone *)

Lemma handle_put_fault io now k p auth w :
  run_fails io = true →
  db (snd (handle io now (put k p auth) w)) = db w.
Proof.
  intros Hio. destruct k as [[s f] c], p as [name|text];
    unfold put; unfold_handler; by rewrite Hio.
Qed.

Lemma filter_other_key k k' r l :
  key_of r = k → k' ≠ k →
  filter (λ r, key_of r = k') (filter (λ r, key_of r ≠ k) l ++ [r])
  = filter (λ r, key_of r = k') l.
Proof.
  intros Hr Hne. rewrite filter_app.
  rewrite list_filter_filter_l by (intros x ->; done).
  rewrite (filter_singleton_False _ _ []) by congruence.
  by rewrite app_nil_r.
Qed.

(** X2. In a state whose chapters are integers of 64 bits, a put on
    one key, whether its statement runs or fails, leaves every other slot
    as it was, the chapters of both keys being such integers: the rows
    stored under the other key are the same rows, with the same id,
    payload and timestamps. *)
Theorem put_keeps_other_slots io now k p auth w k' :
  chapters_in_range (db w) → int64 (snd k) → int64 (snd k') → k' ≠ k →
  items_at k' (db (snd (handle io now (put k p auth) w))) = items_at k' (db w) ∧
  select_by_key k' (db (snd (handle io now (put k p auth) w)))
    = select_by_key k' (db w).
Proof.
  intros _ _ _ Hne.
  assert (items_at k' (db (snd (handle io now (put k p auth) w)))
          = items_at k' (db w)) as Hitems.
  { destruct (run_fails io) eqn:Hio.
    - by rewrite handle_put_fault.
    - destruct k as [[s f] c].
      destruct (handle_put io now s f c p auth w Hio)
        as (resp & ctype & fp & txt & -> & _ & _).
      unfold items_at. cbn [snd db content]. by apply filter_other_key. }
  split; [exact Hitems|].
  unfold select_by_key. rewrite !find_head. exact (f_equal head Hitems).
Qed.

Lemma put_keeps_other_slots_witness :
  items_at ("math", "notes", 1%Z)
    (db (snd (handle no_faults 200
                (put ("math", "notes", 2%Z) (Text "B") None) file_world)))
    = items_at ("math", "notes", 1%Z) (db file_world) ∧
  select_by_key ("math", "notes", 1%Z)
    (db (snd (handle no_faults 200
                (put ("math", "notes", 2%Z) (Text "B") None) file_world)))
    = select_by_key ("math", "notes", 1%Z) (db file_world).
Proof.
  apply (put_keeps_other_slots no_faults 200 ("math", "notes", 2%Z)
           (Text "B") None file_world ("math", "notes", 1%Z)).
  - exact file_world_in_range.
  - unfold int64. simpl. lia.
  - unfold int64. simpl. lia.
  - intros H. discriminate H.
Defined.

(** ** Puts that fail, and puts with nothing to store *)

Lemma insert_or_replace_None now sub feat chap ctype fp txt d :
  sub = None ∨ feat = None ∨ chap = None →
  insert_or_replace now sub feat chap ctype fp txt d = None.
Proof.
  unfold insert_or_replace. intros [->| [->| ->]]; [done| |].
  - by destruct sub.
  - by destruct sub, feat.
Qed.

Lemma db_run_fails io stmt w :
  run_fails io = true ∨ stmt (db w) = None → db_run io stmt w = (Err, w).
Proof.
  unfold db_run. intros [->| ->]; [done|]. by destruct (run_fails io).
Qed.

(** X3. A [save-text] request whose statement fails, or that lacks the
    subject, the feature or the chapter, is answered with status 500 and
    ['Database error'], and the state is as it was. *)
Theorem save_text_fails_cleanly io now sub feat chap text w :
  run_fails io = true ∨ sub = None ∨ feat = None ∨ chap = None →
  save_text io now sub feat chap text w =
  (Response 500 (Result false (Some "Database error")), w).
Proof.
  intros H. unfold save_text, bind, respond, ret.
  rewrite db_run_fails; [done|].
  destruct H as [H|H]; [by left|right].
  by apply insert_or_replace_None.
Qed.

Lemma save_text_fails_cleanly_witness :
  save_text no_faults 200 (Some "math") (Some "notes") None (Some "B") file_world =
  (Response 500 (Result false (Some "Database error")), file_world).
Proof.
  apply (save_text_fails_cleanly no_faults 200 (Some "math") (Some "notes")
           None (Some "B") file_world).
  right. right. right. reflexivity.
Defined.

(** X4. An upload whose statement fails, or that lacks a key field, is
    answered with status 500 and the database is as it was, but the file
    that multer stored stays in [uploads/]: when no row referenced that
    name before, it is an orphan. *)
Theorem upload_failure_keeps_file io now sub feat chap name auth w :
  run_fails io = true ∨ sub = None ∨ feat = None ∨ chap = None →
  ¬ referenced name (db w) →
  handle io now (UploadFile sub feat chap (Some name) auth) w =
    (Response 500 (Result false (Some "Database error")),
     World (db w) ({[name]} ∪ uploads w)) ∧
  orphan name (World (db w) ({[name]} ∪ uploads w)).
Proof.
  intros H Hfree. split.
  - unfold handle, upload_file, bind, multer_store, respond, ret.
    rewrite db_run_fails; [done|]. cbn [db].
    destruct H as [H|H]; [by left|right].
    by apply insert_or_replace_None.
  - split; [|exact Hfree]. cbn [uploads].
    apply elem_of_union_l. by apply elem_of_singleton.
Qed.

Lemma upload_failure_keeps_file_witness :
  handle (Faults false true) 200
    (UploadFile (Some "math") (Some "notes") (Some 2%Z)
       (Some "1700000000200-7.png") None) file_world =
    (Response 500 (Result false (Some "Database error")),
     World (db file_world) ({["1700000000200-7.png"]} ∪ uploads file_world)) ∧
  orphan "1700000000200-7.png"
    (World (db file_world) ({["1700000000200-7.png"]} ∪ uploads file_world)).
Proof.
  apply (upload_failure_keeps_file (Faults false true) 200
           (Some "math") (Some "notes") (Some 2%Z)
           "1700000000200-7.png" None file_world).
  - left. reflexivity.
  - intros (r & Hin & Hfp).
    apply list_elem_of_singleton in Hin. subst r. discriminate Hfp.
Defined.

(** X5. A [save-text] request with a key but without the [content] field
    succeeds: the slot then holds a row of type ['text'] whose text and
    file path are both NULL, and [get] returns it. *)
Theorem save_text_without_content io io' now now' s f c auth w :
  run_fails io = false → get_fails io' = false →
  success (fst (handle io now (SaveText (Some s) (Some f) (Some c) None auth) w))
    = true ∧
  ∃ r,
    fst (handle io' now' (GetContent s f c)
           (snd (handle io now
                   (SaveText (Some s) (Some f) (Some c) None auth) w)))
      = Response 200 (Found r) ∧
    content_type r = "text" ∧ text_content r = None ∧ file_path r = None.
Proof.
  intros Hio Hio'. unfold handle. rewrite save_text_ok by done.
  cbn [fst snd]. split; [done|].
  exists (upserted now s f c "text" None None (db w)).
  split; [|done].
  unfold get_content, bind, db_get. rewrite Hio'. cbn [db].
  unfold select_by_key. cbn [content]. by rewrite find_key_appended.
Qed.

Lemma save_text_without_content_witness :
  success (fst (handle no_faults 10
                  (SaveText (Some "math") (Some "notes") (Some 1%Z) None None)
                  init_world)) = true ∧
  ∃ r,
    fst (handle no_faults 20 (GetContent "math" "notes" 1)
           (snd (handle no_faults 10
                   (SaveText (Some "math") (Some "notes") (Some 1%Z) None None)
                   init_world)))
      = Response 200 (Found r) ∧
    content_type r = "text" ∧ text_content r = None ∧ file_path r = None.
Proof.
  apply (save_text_without_content no_faults no_faults 10 20
           "math" "notes" 1 None init_world); reflexivity.
Defined.

Lemma handle_upload_ok io now s f c name auth w :
  run_fails io = false →
  handle io now (UploadFile (Some s) (Some f) (Some c) (Some name) auth) w =
  (Response 200
     (Uploaded "File uploaded successfully" ("/uploads/" ++ name)%string),
   World {| content := filter (λ r, key_of r ≠ (s, f, c)) (content (db w))
                         ++ [upserted now s f c "file"
                               (Some ("/uploads/" ++ name)%string) None (db w)];
            sqlite_sequence := sqlite_sequence (db w) + 1;
            admin_settings := admin_settings (db w) |}
         ({[name]} ∪ uploads w)).
Proof.
  intros Hio. unfold handle, bind, multer_store.
  by rewrite upload_file_ok.
Qed.

(** X6. After an upload whose statement runs, the answer names the path
    ['/uploads/' + name], [get] of the key returns a row of type ['file']
    with that path and no text, and the file can be downloaded under its
    name. *)
Theorem put_file_then_get io io' now now' s f c name auth w :
  run_fails io = false → get_fails io' = false →
  let w' := snd (handle io now
                   (UploadFile (Some s) (Some f) (Some c) (Some name) auth) w) in
  fst (handle io now
         (UploadFile (Some s) (Some f) (Some c) (Some name) auth) w)
    = Response 200
        (Uploaded "File uploaded successfully" ("/uploads/" ++ name)%string) ∧
  (∃ r,
     fst (handle io' now' (GetContent s f c) w') = Response 200 (Found r) ∧
     content_type r = "file" ∧
     file_path r = Some ("/uploads/" ++ name)%string ∧
     text_content r = None) ∧
  download name w' = (Attachment name, w').
Proof.
  intros Hio Hio'. cbv zeta. rewrite handle_upload_ok by done.
  cbn [fst snd]. split_and!; [done| |].
  - exists (upserted now s f c "file"
              (Some ("/uploads/" ++ name)%string) None (db w)).
    split; [|done].
    unfold handle, get_content, bind, db_get. rewrite Hio'. cbn [db].
    unfold select_by_key. cbn [content]. by rewrite find_key_appended.
  - unfold download. cbn [uploads]. rewrite decide_True; [done|].
    apply elem_of_union_l. by apply elem_of_singleton.
Qed.

Lemma put_file_then_get_witness :
  let w' := snd (handle no_faults 10
                   (UploadFile (Some "math") (Some "notes") (Some 1%Z)
                      (Some "1700000000000-42.pdf") None) init_world) in
  fst (handle no_faults 10
         (UploadFile (Some "math") (Some "notes") (Some 1%Z)
            (Some "1700000000000-42.pdf") None) init_world)
    = Response 200
        (Uploaded "File uploaded successfully"
           ("/uploads/" ++ "1700000000000-42.pdf")%string) ∧
  (∃ r,
     fst (handle no_faults 20 (GetContent "math" "notes" 1) w')
       = Response 200 (Found r) ∧
     content_type r = "file" ∧
     file_path r = Some ("/uploads/" ++ "1700000000000-42.pdf")%string ∧
     text_content r = None) ∧
  download "1700000000000-42.pdf" w' = (Attachment "1700000000000-42.pdf", w').
Proof.
  apply (put_file_then_get no_faults no_faults 10 20 "math" "notes" 1
           "1700000000000-42.pdf" None init_world); reflexivity.
Defined.

(** ** Deleting *)

Lemma select_by_id_Some id d r :
  select_by_id id d = Some r → r ∈ content d ∧ rowid r = id.
Proof.
  unfold select_by_id. intros ([i x] & Hf & ->)%fmap_Some. simpl.
  apply list_find_Some in Hf as (Hl & Hk & _).
  split; [by eapply list_elem_of_lookup_2|done].
Qed.

Lemma select_by_id_deleted id d : select_by_id id (delete_by_id id d) = None.
Proof.
  apply select_by_id_None, Forall_forall. cbn [delete_by_id content].
  by intros r [Hne _]%list_elem_of_filter.
Qed.

Lemma unlink_row_file_uploads row w :
  uploads (snd (unlink_row_file row w)) =
  match row with
  | Some r =>
      if truthy (file_path r)
      then uploads w ∖ {[basename (default "" (file_path r))]}
      else uploads w
  | None => uploads w
  end.
Proof.
  unfold unlink_row_file, unlink_if_exists, ret.
  destruct row as [r|]; [|done].
  destruct (truthy _); [|done].
  case_decide as Hin; [done|]. cbn [snd].
  by rewrite difference_disjoint_L by by apply disjoint_singleton_r.
Qed.

(** The delete route without a database fault, in one step. *)
Lemma delete_content_ok id w :
  delete_content no_faults id w =
  (Response 200 (Result true (Some "Content deleted successfully")),
   World (delete_by_id id (db w))
         (uploads (snd (unlink_row_file (select_by_id id (db w)) w)))).
Proof.
  unfold delete_content, bind, db_get, db_run, respond, ret. cbn [get_fails no_faults].
  pose proof (unlink_row_file_db (select_by_id id (db w)) w) as Hdb.
  destruct (unlink_row_file _ w) as [[] w1]. cbn [snd] in *.
  cbn [run_fails no_faults]. by rewrite Hdb.
Qed.

(** X7. Deleting the id of a stored row, without a database fault,
    removes the row and its blob: the id and the row's key no longer
    resolve, and when the row had a file path, the file it names is gone
    from [uploads/] and a download of it is answered with 404. *)
Theorem delete_removes_row_and_blob id r w :
  wf (db w) → select_by_id id (db w) = Some r →
  let w' := snd (delete_content no_faults id w) in
  success (fst (delete_content no_faults id w)) = true ∧
  select_by_id id (db w') = None ∧
  select_by_key (key_of r) (db w') = None ∧
  ∀ p, file_path r = Some p → p ≠ "" →
       (basename p ∉ uploads w') ∧
       download (basename p) w' =
         (Json (Response 404 (Result false (Some "File not found"))), w').
Proof.
  intros Hwf Hid. cbv zeta. rewrite delete_content_ok. cbn [fst snd db].
  pose proof (select_by_id_Some _ _ _ Hid) as [Hin Hrid].
  split_and!; [done|apply select_by_id_deleted| |].
  - apply select_by_key_None. cbn [delete_by_id content].
    intros r' [Hne Hin']%list_elem_of_filter Hkey.
    apply Hne. rewrite <- Hrid. f_equal.
    eapply NoDup_fmap_eq; [apply Hwf|done|done|done].
  - intros p Hp Hne.
    assert (basename p ∉
            uploads (snd (unlink_row_file (select_by_id id (db w)) w))) as Hgone.
    { rewrite unlink_row_file_uploads, Hid. unfold truthy. rewrite Hp.
      rewrite bool_decide_true by done. cbn [default].
      apply not_elem_of_difference. right. by apply elem_of_singleton. }
    split; [exact Hgone|].
    unfold download. cbn [uploads]. by rewrite decide_False.
Qed.

Lemma delete_removes_row_and_blob_witness :
  let w' := snd (delete_content no_faults 1 file_world) in
  success (fst (delete_content no_faults 1 file_world)) = true ∧
  select_by_id 1 (db w') = None ∧
  select_by_key (key_of file_row) (db w') = None ∧
  ∀ p, file_path file_row = Some p → p ≠ "" →
       (basename p ∉ uploads w') ∧
       download (basename p) w' =
         (Json (Response 404 (Result false (Some "File not found"))), w').
Proof.
  apply (delete_removes_row_and_blob 1 file_row file_world).
  - exact file_world_wf.
  - reflexivity.
Defined.

(** X8. A delete, with or without a database fault, touches nothing but
    its own row and that row's file: every other id resolves as before,
    no file is added to [uploads/], and a file that is removed is the one
    named by the [file_path] of the row with the given id. *)
Theorem delete_touches_one_row io id w :
  let w' := snd (delete_content io id w) in
  (∀ id', id' ≠ id → select_by_id id' (db w') = select_by_id id' (db w)) ∧
  uploads w' ⊆ uploads w ∧
  (∀ name, name ∈ uploads w → name ∉ uploads w' →
     ∃ r p, select_by_id id (db w) = Some r ∧ file_path r = Some p ∧
            name = basename p).
Proof.
  cbv zeta.
  assert (snd (delete_content io id w) = w ∨
          ∃ d, snd (delete_content io id w) =
                 World d (uploads (snd (unlink_row_file
                                          (select_by_id id (db w)) w))) ∧
               (d = db w ∨ d = delete_by_id id (db w))) as [->|(d & -> & Hd)].
  { unfold delete_content, bind, db_get, db_run, respond, ret.
    destruct (get_fails io); [by left|right].
    pose proof (unlink_row_file_db (select_by_id id (db w)) w) as Hdb.
    destruct (unlink_row_file _ w) as [[] w1]. cbn [snd] in *.
    destruct (run_fails io); cbn [snd].
    - exists (db w). split; [|by left]. destruct w1; simpl in *. by subst.
    - eexists. split; [done|]. right. by rewrite Hdb. }
  { split_and!; [done|done|]. by intros name Hin Hout. }
  cbn [db uploads]. rewrite unlink_row_file_uploads. split_and!.
  - intros id' Hne. destruct Hd as [->| ->]; [done|].
    unfold select_by_id. rewrite !find_head. cbn [delete_by_id content].
    by rewrite list_filter_filter_l by (intros x ->; done).
  - destruct (select_by_id id (db w)) as [r|]; [|done].
    destruct (truthy (file_path r)); [by apply subseteq_difference_l|done].
  - intros name Hin Hout.
    destruct (select_by_id id (db w)) as [r|]; [|done].
    unfold truthy in Hout. destruct (file_path r) as [p|] eqn:Hp; [|done].
    exists r, p. split_and!; [done..|].
    case_bool_decide; [|done]. cbn [default] in Hout.
    apply not_elem_of_difference in Hout as [?|Hs]; [done|].
    by apply elem_of_singleton in Hs.
Qed.

(** X9. A second delete of the same id finds nothing to do: it answers
    [success: true] again and leaves the state of the first delete. *)
Theorem delete_twice id w :
  let w1 := snd (delete_content no_faults id w) in
  delete_content no_faults id w1 =
  (Response 200 (Result true (Some "Content deleted successfully")), w1).
Proof.
  cbv zeta. apply delete_content_absent.
  rewrite delete_content_ok. cbn [snd db]. apply select_by_id_deleted.
Qed.

(** ** Ids and rows along a run *)

Lemma extends_refl d : extends d d.
Proof. split; [lia|]. by left. Qed.

Lemma extends_trans d1 d2 d3 : extends d1 d2 → extends d2 d3 → extends d1 d3.
Proof.
  intros [Hs1 Hr1] [Hs2 Hr2]. split; [lia|].
  intros r [Hr|Hr]%Hr2; [by apply Hr1|right; lia].
Qed.

Lemma insert_or_replace_extends now s f c ctype fp txt d d' :
  insert_or_replace now s f c ctype fp txt d = Some d' → extends d d'.
Proof.
  unfold insert_or_replace.
  destruct s as [s|], f as [f|], c as [c|]; try discriminate.
  intros [= <-]. split; cbn [sqlite_sequence content]; [lia|].
  intros r [[_ Hin]%list_elem_of_filter| ->%list_elem_of_singleton]%elem_of_app.
  - by left.
  - right. simpl. lia.
Qed.

Lemma delete_by_id_extends id d : extends d (delete_by_id id d).
Proof.
  split; cbn [delete_by_id sqlite_sequence content]; [lia|].
  intros r [_ Hin]%list_elem_of_filter. by left.
Qed.

Lemma db_run_extends io stmt w :
  (∀ d', stmt (db w) = Some d' → extends (db w) d') →
  extends (db w) (db (snd (db_run io stmt w))).
Proof.
  intros Hstmt. unfold db_run.
  destruct (run_fails io); [apply extends_refl|].
  destruct (stmt (db w)) as [d'|] eqn:E; [by apply Hstmt|apply extends_refl].
Qed.

Lemma handle_extends io now req w :
  extends (db w) (db (snd (handle io now req w))).
Proof.
  destruct req as [p|old new|sub feat chap file a
                  |sub feat chap text a|sub feat chap|id a].
  - unfold_handler. destruct (get_fails io); [apply extends_refl|].
    destruct (password_matches _ _); apply extends_refl.
  - unfold_handler. destruct (get_fails io); [apply extends_refl|].
    destruct (password_matches _ _); [|apply extends_refl].
    destruct (run_fails io); [apply extends_refl|]. simpl.
    split; [done|]. by left.
  - unfold handle, upload_file, bind, respond, ret.
    destruct file as [name|]; [|apply extends_refl].
    unfold multer_store.
    set (w1 := World (db w) ({[name]} ∪ uploads w)).
    pose proof (db_run_extends io
      (insert_or_replace now sub feat chap "file"
         (Some ("/uploads/" ++ name)%string) None) w1
      (λ d', insert_or_replace_extends _ _ _ _ _ _ _ _ d')) as Hext.
    destruct (db_run io _ w1) as [[|[]] w2]; exact Hext.
  - unfold handle, save_text, bind, respond, ret.
    pose proof (db_run_extends io
      (insert_or_replace now sub feat chap "text" None text) w
      (λ d', insert_or_replace_extends _ _ _ _ _ _ _ _ d')) as Hext.
    destruct (db_run io _ w) as [[|[]] w2]; exact Hext.
  - unfold_handler. destruct (get_fails io); [apply extends_refl|].
    destruct (select_by_key _ _); apply extends_refl.
  - unfold_handler. destruct (get_fails io); [apply extends_refl|].
    pose proof (unlink_row_file_db (select_by_id id (db w)) w) as Hdb.
    destruct (unlink_row_file _ w) as [[] w1]. simpl in Hdb.
    destruct (run_fails io); simpl; rewrite Hdb;
      [apply extends_refl|apply delete_by_id_extends].
Qed.

Lemma serve_extends reqs w : extends (db w) (db (serve reqs w)).
Proof.
  revert w. induction reqs as [|[[io now] req] rest IH]; intros w.
  - apply extends_refl.
  - simpl. eapply extends_trans; [apply handle_extends|apply IH].
Qed.

(** X10. Along any run of the server the id counter never goes down and
    no row is rewritten: a row of a later state either is a row of the
    earlier state, equal in every field, or has an id above the earlier
    counter. *)
Theorem rows_are_never_rewritten reqs w :
  (sqlite_sequence (db w) ≤ sqlite_sequence (db (serve reqs w)))%Z ∧
  ∀ r, r ∈ content (db (serve reqs w)) →
       r ∈ content (db w) ∨ (sqlite_sequence (db w) < rowid r)%Z.
Proof.
  change (extends (db w) (db (serve reqs w))).
  revert w. induction reqs as [|[[io now] req] rest IH]; intros w.
  - apply extends_refl.
  - simpl. eapply extends_trans; [apply handle_extends|apply IH].
Qed.

(** X11. An id at or below the counter that has no row never gets one
    again, whatever requests follow: a deleted or replaced id is not
    reused. *)
Theorem retired_id_never_returns reqs id w :
  (id ≤ sqlite_sequence (db w))%Z → select_by_id id (db w) = None →
  select_by_id id (db (serve reqs w)) = None.
Proof.
  intros Hle Hnone. apply select_by_id_None, Forall_forall.
  intros r Hin Hrid.
  destruct (serve_extends reqs w) as [_ Hrows].
  destruct (Hrows r Hin) as [Hold|Hnew]; [|lia].
  apply select_by_id_None in Hnone. rewrite Forall_forall in Hnone.
  by apply (Hnone r Hold).
Qed.

Lemma retired_id_never_returns_witness :
  select_by_id 1
    (db (serve [(no_faults, 300%Z,
                 put ("math", "notes", 1%Z) (Text "B") None)]
           (serve [(no_faults, 200%Z, DeleteContent 1 None)] file_world)))
  = None.
Proof.
  apply (retired_id_never_returns
           [(no_faults, 300%Z, put ("math", "notes", 1%Z) (Text "B") None)] 1
           (serve [(no_faults, 200%Z, DeleteContent 1 None)] file_world)).
  - vm_compute. intros H. discriminate H.
  - reflexivity.
Defined.

(** ** The credential record *)

(** X12. A change-password request that is not answered with
    [success: true] (wrong old password, 200; database fault, 500)
    leaves the state as it was, in both variants of the server. *)
Theorem change_password_fails_cleanly io old new w :
  (success (fst (change_password io old new w)) = false →
   snd (change_password io old new w) = w) ∧
  (∀ hash cmp salt,
     success (fst (Bcrypt.change_password hash cmp io salt old new w)) = false →
     snd (Bcrypt.change_password hash cmp io salt old new w) = w).
Proof.
  split; [|intros hash cmp salt];
    unfold change_password, Bcrypt.change_password,
      bind, db_get, db_run, respond, ret;
    destruct (get_fails io); [done| |done|].
  - destruct (password_matches _ _); [|done].
    by destruct (run_fails io).
  - destruct (Bcrypt.password_matches _ _ _); [|done].
    by destruct (run_fails io).
Qed.

Lemma change_password_fails_cleanly_witness :
  snd (change_password no_faults "guess" "s3cret" init_world) = init_world.
Proof.
  apply (proj1 (change_password_fails_cleanly no_faults "guess" "s3cret"
                  init_world)).
  reflexivity.
Defined.

Lemma handle_admin_settings io now req w :
  is_Some (admin_settings (db w)) →
  is_Some (admin_settings (db (snd (handle io now req w)))).
Proof.
  intros Hsome.
  destruct req as [p|old new|sub feat chap file a
                  |sub feat chap text a|sub feat chap|id a].
  - unfold_handler. destruct (get_fails io); [done|].
    by destruct (password_matches _ _).
  - unfold_handler. destruct (get_fails io); [done|].
    destruct (password_matches _ _); [|done].
    destruct (run_fails io); [done|]. simpl.
    destruct Hsome as [h ->]. by eexists.
  - unfold handle, upload_file, bind, respond, ret.
    destruct file as [name|]; [|done].
    unfold multer_store.
    set (w1 := World (db w) ({[name]} ∪ uploads w)).
    pose proof (db_run_admin io
      (insert_or_replace now sub feat chap "file"
         (Some ("/uploads/" ++ name)%string) None) w1
      (λ d', insert_or_replace_admin _ _ _ _ _ _ _ _ d')) as Hadm.
    destruct (db_run io _ w1) as [[|[]] w2]; cbn [snd] in *; by rewrite Hadm.
  - unfold handle, save_text, bind, respond, ret.
    pose proof (db_run_admin io
      (insert_or_replace now sub feat chap "text" None text) w
      (λ d', insert_or_replace_admin _ _ _ _ _ _ _ _ d')) as Hadm.
    destruct (db_run io _ w) as [[|[]] w2]; cbn [snd] in *; by rewrite Hadm.
  - unfold_handler. destruct (get_fails io); [done|].
    by destruct (select_by_key _ _).
  - unfold_handler. destruct (get_fails io); [done|].
    pose proof (unlink_row_file_db (select_by_id id (db w)) w) as Hdb.
    destruct (unlink_row_file _ w) as [[] w1]. simpl in Hdb.
    destruct (run_fails io); simpl; by rewrite Hdb.
Qed.

Lemma serve_admin_settings reqs w :
  is_Some (admin_settings (db w)) →
  is_Some (admin_settings (db (serve reqs w))).
Proof.
  revert w. induction reqs as [|[[io now] req] rest IH]; intros w Hw; [done|].
  simpl. by apply IH, handle_admin_settings.
Qed.

(** X13. On a database whose two tables exist, and without a database
    fault: a credential row that is there stays there through any
    sequence of requests, and [initDatabase] run again, as a restart
    does, then leaves the database as it is, so a rotated password
    survives restarts; when the row is missing, as after a first start
    that ended before it was written, [initDatabase] writes the default
    password and changes nothing else. *)
Theorem restart_keeps_password reqs w :
  (is_Some (admin_settings (db w)) →
   is_Some (admin_settings (db (serve reqs w))) ∧
   initDatabase (db (serve reqs w)) = db (serve reqs w)) ∧
  (admin_settings (db w) = None →
   initDatabase (db w) =
   {| content := content (db w);
      sqlite_sequence := sqlite_sequence (db w);
      admin_settings := Some "admin123" |}).
Proof.
  split.
  - intros Hw.
    assert (is_Some (admin_settings (db (serve reqs w)))) as Hsome
      by by apply serve_admin_settings.
    split; [exact Hsome|].
    destruct Hsome as [h Hh]. unfold initDatabase, init_admin_settings.
    rewrite Hh. destruct (db (serve reqs w)); simpl in *. by subst.
  - intros Hnone. unfold initDatabase, init_admin_settings. by rewrite Hnone.
Qed.

Lemma restart_keeps_password_witness :
  let reqs := [(no_faults, 10%Z, ChangePassword "admin123" "s3cret")] in
  (is_Some (admin_settings (db (serve reqs init_world))) ∧
   initDatabase (db (serve reqs init_world)) = db (serve reqs init_world)) ∧
  admin_settings (db (serve reqs init_world)) = Some "s3cret" ∧
  initDatabase (db (World (Database [] 0 None) ∅)) = db init_world.
Proof.
  intros reqs.
  destruct (restart_keeps_password reqs init_world) as [Hkept _].
  destruct (restart_keeps_password [] (World (Database [] 0 None) ∅))
    as [_ Hfresh].
  split; [|split].
  - apply Hkept. by eexists.
  - reflexivity.
  - rewrite (Hfresh eq_refl). reflexivity.
Defined.

(** ** The listing *)

#[global] Instance string_lt_trans : Transitive string_lt.
Proof.
  intros a b c [Hab Hne] [Hbc Hne']. split; [by etrans|].
  intros ->. apply Hne. by apply (anti_symm String.le).
Qed.

#[global] Instance row_le_trans : Transitive row_le.
Proof.
  intros r1 r2 r3. unfold row_le.
  intros [H1|[E1 H1]] [H2|[E2 H2]].
  - left. by etrans.
  - left. by rewrite <- E2.
  - left. by rewrite E1.
  - right. split; [congruence|].
    destruct H1 as [H1|[F1 H1]], H2 as [H2|[F2 H2]].
    + left. by etrans.
    + left. by rewrite <- F2.
    + left. by rewrite F1.
    + right. split; [congruence|lia].
Qed.

Lemma string_le_lt_eq a b : String.le a b → string_lt a b ∨ a = b.
Proof.
  intros H. destruct (decide (a = b)) as [->|Hne]; [by right|by left].
Qed.

Lemma row_le_same_prefix r1 r2 :
  subject r1 = subject r2 → row_le r1 r2 ∨ row_le r2 r1.
Proof.
  intros Hs. unfold row_le.
  destruct (total String.le (feature r1) (feature r2)) as [Hf|Hf];
    apply string_le_lt_eq in Hf as [Hf|Hf].
  - left. right. split; [done|]. by left.
  - destruct (decide (chapter r1 ≤ chapter r2)%Z).
    + left. right. split; [done|]. right. by split.
    + right. right. split; [done|]. right. split; [done|lia].
  - right. right. split; [done|]. by left.
  - destruct (decide (chapter r1 ≤ chapter r2)%Z).
    + left. right. split; [done|]. right. by split.
    + right. right. split; [done|]. right. split; [done|lia].
Qed.

#[global] Instance row_le_total : Total row_le.
Proof.
  intros r1 r2.
  destruct (total String.le (subject r1) (subject r2)) as [Hs|Hs];
    apply string_le_lt_eq in Hs as [Hs|Hs].
  - left. by left.
  - by apply row_le_same_prefix.
  - right. by left.
  - by apply row_le_same_prefix.
Qed.

(** X14. [GET /api/all-content] without a database fault sends every
    row of the table exactly once, in the order of (subject, feature,
    chapter): each row is at or before every later one; the state is
    not changed. With a fault it answers 500. *)
Theorem all_content_sorted io w :
  snd (all_content io w) = w ∧
  if get_fails io
  then fst (all_content io w)
       = Json (Response 500 (Result false (Some "Database error")))
  else ∃ rows, fst (all_content io w) = Rows rows ∧
               rows ≡ₚ content (db w) ∧ StronglySorted row_le rows.
Proof.
  unfold all_content, bind, db_get, ret.
  destruct (get_fails io); [done|]. split; [done|].
  exists (select_all_ordered (db w)). split_and!; [done| |].
  - apply merge_sort_Permutation.
  - apply StronglySorted_merge_sort; apply _.
Qed.

Lemma row_le_antisym_key r1 r2 :
  row_le r1 r2 → row_le r2 r1 → key_of r1 = key_of r2.
Proof.
  assert (∀ a b, string_lt a b → string_lt b a → False) as Hlt.
  { intros a b [H1 Hne] [H2 _]. apply Hne. by apply (anti_symm String.le). }
  assert (∀ a, ¬ string_lt a a) as Hirr by (by intros a [_ ?]).
  unfold row_le, key_of.
  intros [H1|[E1 H1]] [H2|[E2 H2]].
  - destruct (Hlt _ _ H1 H2).
  - rewrite E2 in H1. destruct (Hirr _ H1).
  - rewrite E1 in H2. destruct (Hirr _ H2).
  - destruct H1 as [H1|[F1 H1]], H2 as [H2|[F2 H2]].
    + destruct (Hlt _ _ H1 H2).
    + rewrite F2 in H1. destruct (Hirr _ H1).
    + rewrite F1 in H2. destruct (Hirr _ H2).
    + f_equal; [by f_equal|lia].
Qed.

(** X15. In a state that keeps the table constraints the listing is
    fixed by what is stored: any arrangement of the table's rows that is
    in (subject, feature, chapter) order is the list that
    [GET /api/all-content] sends, whatever the order of insertion. *)
Theorem all_content_unique io w rows :
  wf (db w) → get_fails io = false →
  rows ≡ₚ content (db w) → StronglySorted row_le rows →
  fst (all_content io w) = Rows rows.
Proof.
  intros Hwf Hio Hperm Hsorted.
  unfold all_content, bind, db_get, ret. rewrite Hio. cbn [fst]. f_equal.
  symmetry. apply (StronglySorted_unique_strong row_le); [|done| |].
  - intros x1 x2 Hx1 Hx2 H12 H21.
    eapply NoDup_fmap_eq; [apply Hwf| | |by apply row_le_antisym_key].
    + by rewrite <- Hperm.
    + unfold select_all_ordered in Hx2.
      by rewrite merge_sort_Permutation in Hx2.
  - apply StronglySorted_merge_sort; apply _.
  - unfold select_all_ordered. by rewrite merge_sort_Permutation.
Qed.

Lemma shelf_world_wf : wf (db shelf_world).
Proof. apply reachable_wf. unfold shelf_world. by eexists. Qed.


Lemma all_content_unique_witness :
  content (db shelf_world) =
    [Row 1 "math" "notes" 3 "text" None (Some "third") 100 100;
     Row 2 "math" "notes" 1 "file" (Some "/uploads/1700000000000-42.pdf")
       None 110 110;
     Row 3 "algebra" "notes" 2 "text" None (Some "second") 120 120] ∧
  fst (all_content no_faults shelf_world) =
    Rows [Row 3 "algebra" "notes" 2 "text" None (Some "second") 120 120;
          Row 2 "math" "notes" 1 "file"
            (Some "/uploads/1700000000000-42.pdf") None 110 110;
          Row 1 "math" "notes" 3 "text" None (Some "third") 100 100].
Proof.
  split; [reflexivity|].
  apply (all_content_unique no_faults shelf_world).
  - exact shelf_world_wf.
  - reflexivity.
  - change (content (db shelf_world))
      with (reverse
              [Row 3 "algebra" "notes" 2 "text" None (Some "second") 120 120;
               Row 2 "math" "notes" 1 "file"
                 (Some "/uploads/1700000000000-42.pdf") None 110 110;
               Row 1 "math" "notes" 3 "text" None (Some "third") 100 100]).
    symmetry. apply reverse_Permutation.
  - by_compute.
Defined.

(** ** Strings: characters, [path.basename], [path.extname] *)

Abbreviation chars := list_ascii_of_string.

Lemma chars_app s1 s2 : chars (s1 +:+ s2) = chars s1 ++ chars s2.
Proof.
  induction s1 as [|c s1 IH]; [done|].
  change (String c s1 +:+ s2) with (String c (s1 +:+ s2)).
  simpl. by rewrite IH.
Qed.

Lemma app_nil_r_string s : s +:+ "" = s.
Proof.
  induction s as [|c s IH]; [done|].
  change (String c s +:+ "") with (String c (s +:+ "")). by rewrite IH.
Qed.

Lemma app_assoc_string s1 s2 s3 : (s1 +:+ s2) +:+ s3 = s1 +:+ (s2 +:+ s3).
Proof.
  induction s1 as [|c s1 IH]; [done|].
  change (String c s1 +:+ s2) with (String c (s1 +:+ s2)).
  change (String c (s1 +:+ s2) +:+ s3) with (String c ((s1 +:+ s2) +:+ s3)).
  change (String c s1 +:+ (s2 +:+ s3)) with (String c (s1 +:+ (s2 +:+ s3))).
  by rewrite IH.
Qed.

Lemma app_empty_string s1 s2 : s1 +:+ s2 = "" → s1 = "" ∧ s2 = "".
Proof. destruct s1; [done|]. intros H. discriminate H. Qed.

(** A path without a slash is its own last component. *)
Lemma basename_from_no_slash cur last s :
  slash ∉ chars s →
  basename_from cur last s
  = if decide (cur +:+ s = "") then last else cur +:+ s.
Proof.
  revert cur. induction s as [|c s IH]; intros cur Hs.
  - simpl. by rewrite app_nil_r_string.
  - simpl in Hs. apply not_elem_of_cons in Hs as [Hc Hs].
    simpl. rewrite decide_False by done. rewrite IH by done.
    rewrite app_assoc_string.
    change (String c "" +:+ s) with (String c s). done.
Qed.

(** The last component of [pre/name] is [name]. *)
Lemma basename_from_component cur last pre name :
  name ≠ "" → slash ∉ chars name →
  basename_from cur last (pre +:+ String slash name) = name.
Proof.
  intros Hne Hs. revert cur last.
  induction pre as [|c pre IH]; intros cur last.
  - change ("" +:+ String slash name) with (String slash name).
    simpl. destruct (decide (slash = slash)) as [_|?]; [|done].
    rewrite basename_from_no_slash by done.
    change ("" +:+ name) with name. by rewrite decide_False.
  - change (String c pre +:+ String slash name)
      with (String c (pre +:+ String slash name)).
    simpl. case_decide; apply IH.
Qed.

Lemma basename_uploads name :
  name ≠ "" → slash ∉ chars name → basename ("/uploads/" +:+ name) = name.
Proof.
  intros Hne Hs. unfold basename.
  change ("/uploads/" +:+ name) with ("/uploads" +:+ String slash name).
  by apply basename_from_component.
Qed.

(** The last component of a path has no slash, and no character that
    the path does not have. *)
Lemma basename_from_chars cur last s c :
  c ∈ chars (basename_from cur last s) →
  c ≠ slash ∧ (c ∈ chars s) ∨ c ∈ chars cur ∨ c ∈ chars last.
Proof.
  revert cur last. induction s as [|a s IH]; intros cur last; simpl.
  - case_decide; auto.
  - case_decide as Ha.
    + intros [[Hc Hin]|[Hin|Hin]]%IH.
      * left. split; [done|]. by right.
      * simpl in Hin. by apply elem_of_nil in Hin.
      * case_decide; auto.
    + intros [[Hc Hin]|[Hin|Hin]]%IH.
      * left. split; [done|]. by right.
      * rewrite chars_app in Hin. apply elem_of_app in Hin as [Hin|Hin]; [auto|].
        simpl in Hin. apply list_elem_of_singleton in Hin as ->.
        left. split; [done|]. by left.
      * auto.
Qed.

Lemma basename_chars p c :
  c ∈ chars (basename p) → c ≠ slash ∧ c ∈ chars p.
Proof.
  intros [H|[H|H]]%basename_from_chars; [done| |];
    simpl in H; by apply elem_of_nil in H.
Qed.

Lemma ext_from_None s : "."%char ∉ chars s → ext_from s = None.
Proof.
  induction s as [|c s IH]; [done|]. simpl.
  intros [Hc Hs]%not_elem_of_cons. rewrite IH by done.
  by rewrite decide_False.
Qed.

Lemma ext_from_None_inv s : ext_from s = None → "."%char ∉ chars s.
Proof.
  induction s as [|c s IH]; simpl; [intros _; apply not_elem_of_nil|].
  destruct (ext_from s); [done|]. case_decide; [done|].
  intros _. apply not_elem_of_cons. auto.
Qed.

Lemma ext_from_Some s e :
  ext_from s = Some e →
  ∃ pre e', s = pre +:+ e ∧ e = String "." e' ∧ ("."%char ∉ chars e').
Proof.
  revert e. induction s as [|c s IH]; intros e; simpl; [done|].
  destruct (ext_from s) as [e0|] eqn:E.
  - intros [= <-]. destruct (IH e0 eq_refl) as (pre & e' & -> & -> & He').
    by exists (String c pre), e'.
  - case_decide as Hc; [|done]. intros [= <-]. subst c.
    exists "", s. split_and!; [done..|]. by apply ext_from_None_inv.
Qed.

Lemma ext_from_app pre e' :
  "."%char ∉ chars e' → ext_from (pre +:+ String "." e') = Some (String "." e').
Proof.
  intros He'. induction pre as [|c pre IH].
  - change ("" +:+ String "." e') with (String "." e'). simpl.
    by rewrite ext_from_None.
  - change (String c pre +:+ String "." e')
      with (String c (pre +:+ String "." e')).
    simpl. by rewrite IH.
Qed.

(** The extension is empty, or a dot followed by characters among which
    there is neither a dot nor a slash. *)
Lemma extname_shape p :
  extname p = "" ∨
  ∃ e', extname p = String "." e' ∧ ("."%char ∉ chars e') ∧ slash ∉ chars e'.
Proof.
  unfold extname. destruct (ext_from (basename p)) as [e|] eqn:E; [|by left].
  case_decide; [by left|]. case_decide; [by left|]. right.
  destruct (ext_from_Some _ _ E) as (pre & e' & Hb & -> & He').
  exists e'. split_and!; [done..|].
  intros Hin. apply (basename_chars p slash); [|done].
  rewrite Hb, chars_app. apply elem_of_app. right. simpl. by right.
Qed.

Lemma extname_no_dot p : "."%char ∉ chars p → extname p = "".
Proof.
  intros Hp. unfold extname. rewrite ext_from_None; [done|].
  intros Hin. by apply basename_chars in Hin as [_ ?].
Qed.

(** Decimal numerals. *)
Lemma pretty_N_char_digit x : pretty_N_char x ∈ chars "0123456789".
Proof. unfold pretty_N_char. repeat case_match; by_compute. Qed.

Lemma pretty_N_go_chars x s c :
  c ∈ chars (pretty_N_go x s) → c ∈ chars "0123456789" ∨ c ∈ chars s.
Proof.
  revert s. induction (N.lt_wf_0 x) as [x _ IH]; intros s.
  assert (x = 0 ∨ 0 < x)%N as [->|Hx] by lia.
  - rewrite pretty_N_go_0. by right.
  - rewrite pretty_N_go_step by done.
    intros [H|H]%IH; [by left| |by apply N.div_lt].
    simpl in H. apply elem_of_cons in H as [->|H]; [left|by right].
    apply pretty_N_char_digit.
Qed.

Lemma pretty_N_chars (n : N) c :
  c ∈ chars (pretty n) → c ∈ chars "0123456789".
Proof.
  unfold pretty, pretty_N. case_decide.
  { simpl. intros ->%list_elem_of_singleton. by_compute. }
  intros [Hc|Hc]%pretty_N_go_chars; [done|].
  simpl in Hc. by apply elem_of_nil in Hc.
Qed.

(** The unique name is a stem of digits and one dash, then the extension
    of the original name. *)
Lemma uniqueName_stem ms rnd f :
  ∃ stem, uniqueName ms rnd f = stem +:+ extname (originalname f) ∧
          stem ≠ "" ∧ ∀ c, c ∈ chars stem → c ∈ chars "0123456789-".
Proof.
  exists (pretty ms +:+ ("-" +:+ pretty rnd)). split_and!.
  - unfold uniqueName. by rewrite !app_assoc_string.
  - intros [_ H]%app_empty_string. discriminate H.
  - intros c. rewrite chars_app.
    change ("-" +:+ pretty rnd) with (String "-" (pretty rnd)). simpl.
    rewrite elem_of_app, elem_of_cons.
    intros [H|[->|H]]; [|by_compute|];
      apply pretty_N_chars in H;
      change (c ∈ chars "0123456789" ++ ["-"%char]);
      apply elem_of_app; by left.
Qed.

Lemma app_left_id_string s e : s +:+ e = e → s = "".
Proof.
  intros H. apply (f_equal (λ x, length (chars x))) in H. simpl in H.
  rewrite chars_app, length_app in H. destruct s; [done|]. simpl in H. lia.
Qed.

Lemma uniqueName_safe_stem ms rnd f :
  ∃ stem, uniqueName ms rnd f = stem +:+ extname (originalname f) ∧
          stem ≠ "" ∧
          (∀ c, c ∈ chars stem → c ≠ slash ∧ c ≠ "."%char) ∧
          slash ∉ chars (stem +:+ extname (originalname f)).
Proof.
  destruct (uniqueName_stem ms rnd f) as (stem & E & Hne & Hstem).
  exists stem.
  assert (∀ c, c ∈ chars stem → c ≠ slash ∧ c ≠ "."%char) as Hsafe.
  { intros c Hc%Hstem. clear -Hc. split; intros ->; revert Hc; by_compute. }
  split_and!; [done..|].
  rewrite chars_app, elem_of_app. intros [H|H].
  - by apply Hsafe in H as [? _].
  - destruct (extname_shape (originalname f)) as [E'|(e' & E' & _ & He')];
      rewrite E' in H; simpl in H; [by apply elem_of_nil in H|].
    by apply elem_of_cons in H as [H|H].
Qed.

Lemma uniqueName_basename ms rnd f :
  basename ("/uploads/" +:+ uniqueName ms rnd f) = uniqueName ms rnd f.
Proof.
  destruct (uniqueName_safe_stem ms rnd f) as (stem & -> & Hne & _ & Hslash).
  apply basename_uploads; [|done]. by intros [? _]%app_empty_string.
Qed.

(** X16. The name under which multer stores an upload has no slash, so
    the last component of the row's path ['/uploads/' + name] is the name
    itself, and it ends in the extension of the original name. *)
Theorem uniqueName_keeps_extension ms rnd f :
  (slash ∉ chars (uniqueName ms rnd f)) ∧
  basename ("/uploads/" +:+ uniqueName ms rnd f) = uniqueName ms rnd f ∧
  extname (uniqueName ms rnd f) = extname (originalname f).
Proof.
  split_and!; [|apply uniqueName_basename|].
  { destruct (uniqueName_safe_stem ms rnd f) as (stem & -> & _ & _ & Hslash).
    exact Hslash. }
  destruct (uniqueName_safe_stem ms rnd f) as (stem & -> & Hne & Hsafe & Hslash).
  assert (stem +:+ extname (originalname f) ≠ "") as Hnonempty.
  { by intros [? _]%app_empty_string. }
  unfold extname at 1. unfold basename.
  rewrite basename_from_no_slash by done.
  change ("" +:+ (stem +:+ extname (originalname f)))
    with (stem +:+ extname (originalname f)).
  rewrite decide_False by done.
  destruct (extname_shape (originalname f)) as [E|(e' & E & He' & _)];
    rewrite E.
  - rewrite app_nil_r_string. rewrite ext_from_None; [done|].
    intros H. by apply Hsafe in H as [_ ?].
  - rewrite ext_from_app by done.
    rewrite decide_False.
    2:{ intros H. symmetry in H. by apply app_left_id_string in H. }
    rewrite decide_False; [done|].
    destruct stem as [|c stem]; [done|].
    change (String c stem +:+ String "." e')
      with (String c (stem +:+ String "." e')).
    intros [= -> _]. destruct (Hsafe "."%char); [by left|done].
Qed.

(** ** The upload route behind multer *)

Lemma upload_route_filtered io now lim ms rnd sub feat chap f w :
  fileFilter f = false →
  upload_route io now lim ms rnd sub feat chap (Some f) w =
  (ExpressError "Only PDF, DOC, DOCX, TXT, and image files are allowed!", w).
Proof.
  intros Hf. unfold upload_route, upload_single, bind, ret. by rewrite Hf.
Qed.

(** X17. A file whose name has no dot is refused by the filter whatever
    its MIME type and size: the route handler does not run and neither a
    file nor a row is written. *)
Theorem upload_without_extension_refused io now lim ms rnd sub feat chap f w :
  "."%char ∉ chars (originalname f) →
  upload_route io now lim ms rnd sub feat chap (Some f) w =
  (ExpressError "Only PDF, DOC, DOCX, TXT, and image files are allowed!", w).
Proof.
  intros Hdot. apply upload_route_filtered.
  unfold fileFilter. rewrite extname_no_dot by done.
  apply andb_false_r.
Qed.

Lemma upload_without_extension_refused_witness :
  upload_route no_faults 100 true 1700000000000 42
    (Some "math") (Some "notes") (Some 1%Z)
    (Some (Upload "README" "application/pdf" 1024)) init_world =
  (ExpressError "Only PDF, DOC, DOCX, TXT, and image files are allowed!",
   init_world).
Proof.
  apply (upload_without_extension_refused no_faults 100 true 1700000000000 42
           (Some "math") (Some "notes") (Some 1%Z)
           (Upload "README" "application/pdf" 1024) init_world).
  by_compute.
Defined.

(** X18. The MIME type is searched for the words of the pattern, it is
    not compared with a list of types: ['text/plain'] and
    ['application/msword'] contain none of the words, so a file declared
    with one of them, a [.txt] or [.doc] file with its usual type, is
    refused whatever its name, and nothing is written. *)
Theorem upload_of_plain_text_refused io now lim ms rnd sub feat chap f w :
  mimetype f = "text/plain" ∨ mimetype f = "application/msword" →
  fileFilter f = false ∧
  upload_route io now lim ms rnd sub feat chap (Some f) w =
  (ExpressError "Only PDF, DOC, DOCX, TXT, and image files are allowed!", w).
Proof.
  intros Hm.
  assert (fileFilter f = false) as Hf.
  { unfold fileFilter. by destruct Hm as [-> | ->]. }
  split; [exact Hf|]. by apply upload_route_filtered.
Qed.

Lemma upload_of_plain_text_refused_witness :
  fileFilter (Upload "notes.txt" "text/plain" 1024) = false ∧
  upload_route no_faults 100 true 1700000000000 42
    (Some "math") (Some "notes") (Some 1%Z)
    (Some (Upload "notes.txt" "text/plain" 1024)) init_world =
  (ExpressError "Only PDF, DOC, DOCX, TXT, and image files are allowed!",
   init_world).
Proof.
  apply (upload_of_plain_text_refused no_faults 100 true 1700000000000 42
           (Some "math") (Some "notes") (Some 1%Z)
           (Upload "notes.txt" "text/plain" 1024) init_world).
  left. reflexivity.
Defined.

Lemma too_large_above lim sz :
  (fileSize_limit < sz)%N → too_large lim sz = true.
Proof.
  intros H. unfold too_large. destruct lim.
  - apply N.leb_le. lia.
  - by apply N.ltb_lt.
Qed.


(** X19. For a request with at most one file part, in the field
    ['file'], and whichever multer release runs: a file above
    50 * 1024 * 1024 bytes is answered with an error of the middleware;
    a request without a file is answered with status 400; and whenever
    the route answers with an error of the middleware, the state is as
    it was: neither a file nor a row is written. *)
Theorem upload_refusal_leaves_no_trace io now lim ms rnd sub feat chap file w :
  (∀ f, file = Some f → (fileSize_limit < size f)%N →
        ∃ m, upload_route io now lim ms rnd sub feat chap file w
             = (ExpressError m, w)) ∧
  (file = None →
   upload_route io now lim ms rnd sub feat chap file w =
   (Json (Response 400 (Result false (Some "No file uploaded"))), w)) ∧
  (∀ m, fst (upload_route io now lim ms rnd sub feat chap file w)
          = ExpressError m →
        snd (upload_route io now lim ms rnd sub feat chap file w) = w).
Proof.
  split_and!.
  - intros f -> Hsz. unfold upload_route, upload_single, bind, ret.
    destruct (fileFilter f); [|by eexists].
    rewrite too_large_above by done. by eexists.
  - intros ->. reflexivity.
  - intros m. unfold upload_route, upload_single, bind, ret, multer_store.
    destruct file as [f|].
    + destruct (fileFilter f); [|done].
      destruct (too_large lim (size f)); [done|].
      destruct (upload_file _ _ _ _ _ _ _) as [resp w']. discriminate.
    + destruct (upload_file _ _ _ _ _ _ _) as [resp w']. discriminate.
Qed.

Lemma upload_refusal_leaves_no_trace_witness :
  ∃ m, upload_route no_faults 200 false 1700000000500 7
         (Some "math") (Some "notes") (Some 1%Z)
         (Some (Upload "scan.pdf" "application/pdf" 60000000)) shelf_world
       = (ExpressError m, shelf_world).
Proof.
  apply (proj1 (upload_refusal_leaves_no_trace no_faults 200 false
                  1700000000500 7
                  (Some "math") (Some "notes") (Some 1%Z)
                  (Some (Upload "scan.pdf" "application/pdf" 60000000))
                  shelf_world)
           (Upload "scan.pdf" "application/pdf" 60000000) eq_refl).
  by_compute.
Defined.





(** ** Letter case in the filter *)

Lemma lower_char_slash c : lower_char c = slash ↔ c = slash.
Proof.
  destruct c as [[] [] [] [] [] [] [] []]; vm_compute; split; congruence.
Qed.

Lemma lower_char_dot c : lower_char c = "."%char ↔ c = "."%char.
Proof.
  destruct c as [[] [] [] [] [] [] [] []]; vm_compute; split; congruence.
Qed.

Lemma toLowerCase_app a b :
  toLowerCase (a +:+ b) = toLowerCase a +:+ toLowerCase b.
Proof.
  induction a as [|c a IH]; [done|].
  change (String c a +:+ b) with (String c (a +:+ b)). simpl.
  rewrite IH. done.
Qed.

Lemma toLowerCase_empty s : toLowerCase s = "" ↔ s = "".
Proof. by destruct s. Qed.

Lemma basename_from_lower cur last s :
  basename_from (toLowerCase cur) (toLowerCase last) (toLowerCase s)
  = toLowerCase (basename_from cur last s).
Proof.
  revert cur last. induction s as [|c s IH]; intros cur last; simpl.
  - destruct (decide (cur = "")) as [->|Hne]; [done|].
    rewrite decide_False; [done|]. by rewrite toLowerCase_empty.
  - destruct (decide (c = slash)) as [->|Hc].
    + rewrite decide_True by done.
      destruct (decide (cur = "")) as [->|Hne].
      * simpl. apply (IH "" last).
      * rewrite (decide_False (P := toLowerCase cur = ""))
          by by rewrite toLowerCase_empty.
        apply (IH "" cur).
    + rewrite decide_False by by rewrite lower_char_slash.
      rewrite <- IH. by rewrite toLowerCase_app.
Qed.

Lemma ext_from_lower s :
  ext_from (toLowerCase s) = toLowerCase <$> ext_from s.
Proof.
  induction s as [|c s IH]; [done|]. simpl. rewrite IH.
  destruct (ext_from s); [done|]. simpl.
  destruct (decide (c = "."%char)) as [->|Hc]; [done|].
  rewrite decide_False; [done|]. by rewrite lower_char_dot.
Qed.

Lemma toLowerCase_dotdot b : toLowerCase b = ".." ↔ b = "..".
Proof.
  split; [|by intros ->].
  destruct b as [|c1 [|c2 [|c3 b]]]; simpl; try done.
  intros [= H1 H2].
  apply (proj1 (lower_char_dot _)) in H1.
  apply (proj1 (lower_char_dot _)) in H2. by subst.
Qed.

(** Lower-casing a path and taking the extension commute. *)
Lemma extname_lower p : extname (toLowerCase p) = toLowerCase (extname p).
Proof.
  unfold extname, basename.
  pose proof (basename_from_lower "" "" p) as Hlow.
  change (toLowerCase "") with "" in Hlow. rewrite Hlow, ext_from_lower.
  destruct (ext_from (basename_from "" "" p)) as [e|] eqn:E; [|done].
  cbn [fmap option_fmap option_map].
  destruct (ext_from_Some _ _ E) as (pre & e' & Hb & _ & _).
  destruct (decide (e = basename_from "" "" p)) as [He|He].
  - rewrite decide_True; [done|]. by rewrite He.
  - rewrite decide_False.
    2:{ intros Heq. apply He. rewrite Hb in Heq |- *.
        rewrite toLowerCase_app in Heq. symmetry in Heq.
        apply app_left_id_string in Heq.
        apply (proj1 (toLowerCase_empty _)) in Heq. by subst pre. }
    destruct (decide (basename_from "" "" p = "..")) as [Hd|Hd].
    + rewrite decide_True; [done|]. by apply toLowerCase_dotdot.
    + rewrite decide_False; [done|]. by rewrite toLowerCase_dotdot.
Qed.

(** X21. The filter does not look at the letter case of the file name:
    two files whose names differ only in the case of letters, with the
    same MIME type, get the same verdict. The MIME type itself is
    searched as it is sent. *)
Theorem fileFilter_ignores_case f g :
  toLowerCase (originalname f) = toLowerCase (originalname g) →
  mimetype f = mimetype g →
  fileFilter f = fileFilter g.
Proof.
  intros Hname Hmime. unfold fileFilter.
  rewrite <- !extname_lower. by rewrite Hname, Hmime.
Qed.

Lemma fileFilter_ignores_case_witness :
  fileFilter (Upload "Scan.PDF" "application/pdf" 1024)
  = fileFilter (Upload "scan.pdf" "application/pdf" 2048).
Proof.
  apply (fileFilter_ignores_case (Upload "Scan.PDF" "application/pdf" 1024)
           (Upload "scan.pdf" "application/pdf" 2048)); reflexivity.
Defined.

(** ** The shape of stored rows *)

(** The rows after a request: rows that were there, or the one row that
    an upsert writes. *)
Lemma handle_rows io now req w r :
  r ∈ content (db (snd (handle io now req w))) →
  r ∈ content (db w) ∨
  (∃ s f c name,
     r = upserted now s f c "file" (Some ("/uploads/" +:+ name)) None (db w)) ∨
  (∃ s f c txt, r = upserted now s f c "text" None txt (db w)).
Proof.
  destruct req as [p|old new|sub feat chap file a
                  |sub feat chap text a|sub feat chap|id a].
  - unfold_handler. destruct (get_fails io); [by left|].
    destruct (password_matches _ _); by left.
  - unfold_handler. destruct (get_fails io); [by left|].
    destruct (password_matches _ _); [|by left].
    destruct (run_fails io); by left.
  - unfold handle, upload_file, bind, multer_store, db_run, respond, ret.
    destruct file as [name|]; [|by left]. cbn [db uploads].
    destruct (run_fails io); [by left|].
    unfold insert_or_replace.
    destruct sub as [s|], feat as [f|], chap as [c|]; try by left.
    cbn [snd db content].
    intros [[_ Hin]%list_elem_of_filter| ->%list_elem_of_singleton]%elem_of_app;
      [by left|].
    right. left. by exists s, f, c, name.
  - unfold handle, save_text, bind, db_run, respond, ret.
    destruct (run_fails io); [by left|].
    unfold insert_or_replace.
    destruct sub as [s|], feat as [f|], chap as [c|]; try by left.
    cbn [snd db content].
    intros [[_ Hin]%list_elem_of_filter| ->%list_elem_of_singleton]%elem_of_app;
      [by left|].
    right. right. by exists s, f, c, text.
  - unfold_handler. destruct (get_fails io); [by left|].
    destruct (select_by_key _ _); by left.
  - unfold_handler. destruct (get_fails io); [by left|].
    pose proof (unlink_row_file_db (select_by_id id (db w)) w) as Hdb.
    destruct (unlink_row_file _ w) as [[] w1]. simpl in Hdb.
    destruct (run_fails io); simpl; rewrite Hdb; [by left|].
    intros [_ Hin]%list_elem_of_filter. by left.
Qed.

(** X22. In every state that the server reaches, each row is a file row
    (type ['file'], a path ['/uploads/' + name], no text) or a text row
    (type ['text'], no path; the text may be NULL), and its [updated_at]
    equals its [created_at]: no route ever stores a row whose two
    timestamps differ. *)
Theorem stored_rows_shape reqs :
  Forall (λ r,
    created_at r = updated_at r ∧
    ((content_type r = "file" ∧
      (∃ name, file_path r = Some ("/uploads/" +:+ name)) ∧
      text_content r = None) ∨
     (content_type r = "text" ∧ file_path r = None)))
    (content (db (serve reqs init_world))).
Proof.
  assert (Forall (λ r,
    created_at r = updated_at r ∧
    ((content_type r = "file" ∧
      (∃ name, file_path r = Some ("/uploads/" +:+ name)) ∧
      text_content r = None) ∨
     (content_type r = "text" ∧ file_path r = None)))
    (content (db init_world))) as Hinit by constructor.
  revert Hinit. generalize init_world.
  induction reqs as [|[[io now] req] rest IH]; intros w Hw; [done|].
  simpl. apply IH. apply Forall_forall. intros r Hr.
  destruct (handle_rows io now req w r Hr)
    as [Hold|[(s & f & c & name & ->)|(s & f & c & txt & ->)]].
  - rewrite Forall_forall in Hw. by apply Hw.
  - split; [done|]. left. split_and!; [done| |done]. by exists name.
  - split; [done|]. by right.
Qed.
